(** * mics.MBAR: the MBAR back end of a mixture of samples

    A shallow embedding of [src/mics/MBAR.py] (class [MBAR], methods
    [__initialize__] and [__reweight__]) and the properties of it that
    the specification states.

    Conventions of the embedding.
    - numpy's [float64] arrays are lists over the real numbers [R]:
      the arithmetic is exact, so an equality that the specification
      states "within floating tolerance" is stated here as an equality.
    - A one-dimensional array is a [list R]; a two-dimensional array is
      the list of its rows.  numpy raises [ValueError] on operands whose
      shapes do not fit; the functions of [__initialize__] are total on
      lists and the theorems about them carry the shapes as hypotheses,
      the functions of [__reweight__] return in the error monad [py].
      Past the solve, the model of [__initialize__] fails only in
      [mixture.u[i]]: what is proved about [__initialize__] is proved of
      its successful runs and of the errors raised up to the solve.
    - Python indices are natural numbers: negative indices, which count
      from the end, are left out.
    - [pymbar] is a third-party library: its solver object and its
      methods are parameters of [__initialize__] and [__reweight__].  What
      the specification states about the solve itself is proved on a
      model of the solver that follows section 4.1 of the specification
      ([spec_MBAR]). *)

From Stdlib Require Import String.
From Stdlib Require Import Reals List Arith Lia Lra Bool.
Import ListNotations.

Local Open Scope R_scope.

(** ** Python exceptions and the error monad *)

(** An exception is identified by the name of its class. *)
Definition exn := string.

Definition ValueError : exn := "ValueError"%string.
Definition IndexError : exn := "IndexError"%string.
Definition DimensionMismatchError : exn := "DimensionMismatchError"%string.

(** A computation that returns a value or raises. *)
Definition py (A : Type) : Type := (exn + A)%type.

Definition ret {A : Type} (a : A) : py A := inr a.
Definition raise {A : Type} (e : exn) : py A := inl e.

Definition bind {A B : Type} (m : py A) (k : A -> py B) : py B :=
  match m with
  | inl e => inl e
  | inr a => k a
  end.

Notation "x <- m ;; k" := (bind m (fun x => k))
  (at level 61, m at next level, right associativity).

(** ** Arrays *)

Definition vec := list R.
Definition matrix := list (list R).

Definition nrows {A : Type} (M : list (list A)) : nat := length M.
Definition ncols {A : Type} (M : list (list A)) : nat := length (hd [] M).

(** [is_matrix r c M]: [M] has shape [(r, c)]. *)
Definition is_matrix {A : Type} (r c : nat) (M : list (list A)) : Prop :=
  length M = r /\ Forall (fun row => length row = c) M.

(** [M[i, j]], for indices in range. *)
Definition entry (M : matrix) (i j : nat) : R := nth j (nth i M []) 0.

(** [M[:, j]]. *)
Definition column (j : nat) (M : matrix) : vec :=
  map (fun row => nth j row 0) M.

(** [M.T]. *)
Definition transpose (M : matrix) : matrix :=
  map (fun j => column j M) (seq 0 (ncols M)).

(** [np.sum]. *)
Definition Rsum (x : vec) : R := fold_right Rplus 0 x.

Definition dot (x y : vec) : R :=
  Rsum (map (fun p => fst p * snd p) (combine x y)).

(** [np.matmul] of two two-dimensional arrays whose shapes fit. *)
Definition matmul (A B : matrix) : matrix :=
  map (fun row => map (fun j => dot row (column j B)) (seq 0 (ncols B))) A.

(** [v * M] for a vector [v] of length [ncols M]: numpy aligns [v] with
    the last axis, so column [j] of [M] is multiplied by [v[j]]. *)
Definition row_scale (v : vec) (M : matrix) : matrix :=
  map (fun row => map (fun p => fst p * snd p) (combine v row)) M.

Definition mat_map {A B : Type} (g : A -> B) (M : list (list A))
  : list (list B) := map (map g) M.

Definition nat_sum (l : list nat) : nat := fold_right Nat.add 0%nat l.

(** *** Logarithms of counts

    [np.log(0.0)] is [-inf], and [np.exp(-inf)] is [0.0]: a state
    without samples drops out of every sum of exponentials.  A value that
    may be [-inf] is an [xfloat]. *)
Inductive xfloat : Type :=
| Fin (x : R)
| NegInf.

Definition np_exp (a : xfloat) : R :=
  match a with
  | Fin x => exp x
  | NegInf => 0
  end.

(** [a + x] for a finite [x]. *)
Definition xplus (a : xfloat) (x : R) : xfloat :=
  match a with
  | Fin y => Fin (y + x)
  | NegInf => NegInf
  end.

(** [np.log(k)] of a count [k]. *)
Definition np_log_count (k : nat) : xfloat :=
  if (k =? 0)%nat then NegInf else Fin (ln (INR k)).

(** [np.log(k/N)] of a count [k] out of [N > 0]. *)
Definition np_log_ratio (k N : nat) : xfloat :=
  if (k =? 0)%nat then NegInf else Fin (ln (INR k / INR N)).

Definition xcolumn (j : nat) (M : list (list xfloat)) : list xfloat :=
  map (fun row => nth j row NegInf) M.

(** [a[:, np.newaxis] - M] for a vector [a] of length [nrows M]: the
    column [a] is repeated along the last axis. *)
Definition col_minus (a : list xfloat) (M : matrix) : list (list xfloat) :=
  map (fun p => map (fun x => xplus (fst p) (- x)) (snd p)) (combine a M).

(** [M + v] for a vector [v] of length [ncols M]. *)
Definition plus_row (M : list (list xfloat)) (v : vec) : list (list xfloat) :=
  map (fun row => map (fun p => xplus (fst p) (snd p)) (combine row v)) M.

(** Modelled from the spec: [mics.utils.logsumexp] is imported by
    [MBAR.py] and is not part of the sources at hand.  The glossary of the
    specification defines it as log(sum_i exp(x_i)); on a two-dimensional
    array the reduction runs over the first axis (the states), one value
    per column (per sample). *)
Definition logsumexp (x : list xfloat) : R := ln (Rsum (map np_exp x)).

(** [logsumexp] of a two-dimensional array: one value per column. *)
Definition logsumexp_axis0 (M : list (list xfloat)) : vec :=
  map (fun j => logsumexp (xcolumn j M)) (seq 0 (ncols M)).

(** *** Stacking and indexing *)

Definition hstack_rows (blocks : list matrix) : matrix :=
  map (fun r => concat (map (fun b => nth r b []) blocks))
      (seq 0 (nrows (hd [] blocks))).

(** [np.hstack] of two-dimensional arrays: the rows are joined block
    after block; the blocks must agree in their number of rows, and there
    must be a block. *)
Definition hstack (blocks : list matrix) : py matrix :=
  match blocks with
  | [] => raise ValueError
  | b :: bs =>
      if forallb (fun b' => (nrows b' =? nrows b)%nat) bs
      then ret (hstack_rows blocks)
      else raise ValueError
  end.

(** [np.hstack] of one-dimensional arrays. *)
Definition hstack1 (parts : list vec) : py vec :=
  match parts with
  | [] => raise ValueError
  | _ => ret (concat parts)
  end.

(** [M.flatten()]. *)
Definition flatten (M : matrix) : vec := concat M.

(** [np.stack([a, b])] of two one-dimensional arrays. *)
Definition stack2 (a b : vec) : py matrix :=
  if (length a =? length b)%nat then ret [a; b] else raise ValueError.

(** [v[i]]. *)
Definition getitem {A : Type} (v : list A) (i : nat) : py A :=
  match nth_error v i with
  | Some x => ret x
  | None => raise IndexError
  end.

(** [M[i, j]]. *)
Definition getitem2 (M : matrix) (i j : nat) : py R :=
  row <- getitem M i ;; getitem row j.

Fixpoint set_nth {A : Type} (i : nat) (x : A) (l : list A) : list A :=
  match l, i with
  | [], _ => []
  | _ :: t, O => x :: t
  | h :: t, S i' => h :: set_nth i' x t
  end.

(** [M[i, j] = x]. *)
Definition setitem2 (M : matrix) (i j : nat) (x : R) : py matrix :=
  match nth_error M i with
  | Some row =>
      if (j <? length row)%nat
      then ret (set_nth i (set_nth j x row) M)
      else raise IndexError
  | None => raise IndexError
  end.

Fixpoint map_py {A B : Type} (g : A -> py B) (l : list A) : py (list B) :=
  match l with
  | [] => ret []
  | a :: t => b <- g a ;; bs <- map_py g t ;; ret (b :: bs)
  end.

(** [a - b] of two one-dimensional arrays, with numpy's broadcasting of
    an operand of length one. *)
Definition np_sub (a b : vec) : py vec :=
  if (length a =? length b)%nat
  then ret (map (fun p => fst p - snd p) (combine a b))
  else if (length a =? 1)%nat
  then ret (map (fun y => hd 0 a - y) b)
  else if (length b =? 1)%nat
  then ret (map (fun x => x - hd 0 b) a)
  else raise ValueError.

Definition zeros (r c : nat) : matrix := repeat (repeat 0 c) r.

(** [numpy.linalg.multi_dot([A, B, C])]: the product of the three
    matrices; for operands of the shapes that [__reweight__] passes the
    two orders of evaluation cost the same and numpy takes [A (B C)]. *)
Definition multi_dot3 (A B C : matrix) : py matrix :=
  if ((ncols A =? nrows B) && (ncols B =? nrows C))%nat
  then ret (matmul A (matmul B C))
  else raise ValueError.

(** ** The mixture and the solver object *)

(** The fields of a [mixture] that [MBAR] reads and writes: [m] states,
    [n[i]] samples drawn at state [i], [u[i]] the [m x n[i]] array of the
    reduced potentials of all states at the samples of state [i]. *)
Module mixture.
Record t : Type := Build {
  m : nat;
  n : list nat;
  u : list matrix;
  f : vec;
  u0 : list vec;
  Theta : matrix;
  Overlap : matrix
}.
End mixture.

(** The attributes of a [pymbar.mbar.MBAR] object that [MBAR.py] reads. *)
Record mbar_MBAR : Type := Build_mbar_MBAR {
  f_k : vec;
  Log_W_nk : matrix;
  W_nk : matrix;
  N_k : list nat
}.

(** [mixture.f + np.log(n/sum(n))]. *)
Definition flnpi_of (fv : vec) (nv : list nat) : list xfloat :=
  map (fun p => xplus (np_log_ratio (snd p) (nat_sum nv)) (fst p))
      (combine fv nv).

(** [-logsumexp(flnpi - u)] for one block [u] of the mixture. *)
Definition u0_of (flnpi : list xfloat) (ui : matrix) : vec :=
  map Ropp (logsumexp_axis0 (col_minus flnpi ui)).

(** [np.exp(flnpi - u + u0)] for one block. *)
Definition P_of (flnpi : list xfloat) (ui : matrix) (u0i : vec) : matrix :=
  mat_map np_exp (plus_row (col_minus flnpi ui) u0i).

Section Initialize.

(** [pymbar.mbar.MBAR(u_kn, N_k, relative_tolerance, initial_f_k)]. *)
Variable MBAR_solve : matrix -> list nat -> R -> vec -> py mbar_MBAR.

(** [mb._computeAsymptoticCovarianceMatrix(W, N_k)], where it returns. *)
Variable computeAsymptoticCovarianceMatrix : matrix -> list nat -> matrix.

(** [MBAR.__initialize__]: the updated mixture and [self.P]. *)
Definition __initialize__ (tol : R) (mx : mixture.t)
  : py (mixture.t * list matrix) :=
  u_kn <- hstack (mixture.u mx) ;;
  mb <- MBAR_solve u_kn (mixture.n mx) tol (mixture.f mx) ;;
  let f' := f_k mb in
  let flnpi := flnpi_of f' (mixture.n mx) in
  let u0' := map (u0_of flnpi) (mixture.u mx) in
  P <- map_py (fun i => ui <- getitem (mixture.u mx) i ;;
                        u0i <- getitem u0' i ;;
                        ret (P_of flnpi ui u0i))
              (seq 0 (mixture.m mx)) ;;
  let Theta' := computeAsymptoticCovarianceMatrix
                  (mat_map exp (Log_W_nk mb)) (N_k mb) in
  let Overlap' := row_scale (map INR (N_k mb))
                            (matmul (transpose (W_nk mb)) (W_nk mb)) in
  ret (mixture.Build (mixture.m mx) (mixture.n mx) (mixture.u mx)
                     f' u0' Theta' Overlap', P).

End Initialize.

(** ** Reweighting *)

(** An integer array of one or of two dimensions (the state map). *)
Inductive int_array : Type :=
| Int1 (a : list nat)
| Int2 (a : list (list nat)).

(** The entries of the dictionary that
    [pymbar.mbar.MBAR.computeExpectationsInner] returns and
    [__reweight__] reads. *)
Module results.
Record t : Type := Build {
  f : vec;
  observables : vec;
  Amin : vec;
  Theta : matrix
}.
End results.

(** The loop [for i in range(n): G[i, i+1] = delta[i];
    G[n+1+i, i+1] = -delta[i]]. *)
Fixpoint fill_G (n : nat) (delta : vec) (range : list nat) (G : matrix)
  : py matrix :=
  match range with
  | [] => ret G
  | i :: rest =>
      d <- getitem delta i ;;
      G1 <- setitem2 G i (i + 1) d ;;
      d' <- getitem delta i ;;
      G2 <- setitem2 G1 (n + 1 + i) (i + 1) (- d') ;;
      fill_G n delta rest G2
  end.

(** The gradient [G] of [__reweight__], from [np.zeros] to the end of
    the loop. *)
Definition gradient (n : nat) (yu Amin : vec) : py matrix :=
  let G := zeros (2 * (n + 1)) (n + 1) in
  G <- setitem2 G (n + 1) 0 (-1) ;;
  G <- setitem2 G (2 * n + 1) 0 1 ;;
  delta <- np_sub yu (firstn n Amin) ;;
  fill_G n delta (seq 0 n) G.

(** The state map of [__reweight__]. *)
Definition smap_of (n : nat) : int_array :=
  if (n =? 0)%nat then Int1 (seq 0 2)
  else Int2 [repeat 0%nat n ++ [1%nat]; seq 0 n ++ [0%nat]].

(** The two rows of reduced potentials of [__reweight__]: the new state
    (row 0) and the reference state (row 1) at every sample of the pool. *)
Definition u_ln_of (mx : mixture.t) (u : list matrix) (ref : nat)
  : py matrix :=
  unew <- hstack u ;;
  uref <- (rows <- map_py (fun x => getitem x ref) (mixture.u mx) ;;
           hstack1 rows) ;;
  stack2 (flatten unew) uref.

Section Reweight.

(** [self.MBAR.computeExpectationsInner(A_n, u_ln, smap,
    return_theta=True)]. *)
Variable computeExpectationsInner :
  matrix -> matrix -> int_array -> py results.t.

(** [MBAR.__reweight__]. *)
Definition __reweight__ (mx : mixture.t) (u y : list matrix) (ref : nat)
  : py (vec * matrix) :=
  u_ln <- u_ln_of mx u ref ;;
  A_n <- hstack y ;;
  let n := nrows A_n in
  let smap := smap_of n in
  res <- computeExpectationsInner A_n u_ln smap ;;
  let Theta := results.Theta res in
  if (n =? 0)%nat then
    f0 <- getitem (results.f res) 0 ;;
    f1 <- getitem (results.f res) 1 ;;
    let fu := f0 - f1 in
    t00 <- getitem2 Theta 0 0 ;;
    t11 <- getitem2 Theta 1 1 ;;
    t01 <- getitem2 Theta 0 1 ;;
    let d2fu := t00 + t11 - 2 * t01 in
    ret ([fu], [[d2fu]])
  else
    f0 <- getitem (results.f res) 0 ;;
    fn <- getitem (results.f res) n ;;
    let fu := [f0 - fn] in
    let yu := firstn n (results.observables res) in
    G <- gradient n yu (results.Amin res) ;;
    cov <- multi_dot3 (transpose G) Theta G ;;
    ret (fu ++ yu, cov).

End Reweight.

(** The entries of the Jacobian as the specification lists them
    (section 4.2, step 5): in column 0, -1 at row n+1 and +1 at row 2n+1;
    in column i+1, y_i - Amin_i at row i and -(y_i - Amin_i) at row
    n+1+i; zero elsewhere. *)
Definition jacobian_entry (n : nat) (y Amin : vec) (r c : nat) : R :=
  match c with
  | O => if (r =? n + 1)%nat then -1
         else if (r =? 2 * n + 1)%nat then 1 else 0
  | S i => if (r =? i)%nat then nth i y 0 - nth i Amin 0
           else if (r =? n + 1 + i)%nat then - (nth i y 0 - nth i Amin 0)
           else 0
  end.

(** [True] when every observable vector (every row of [A_n]) has one
    value per sample of the pool. *)
Definition obs_lengths_match (mx : mixture.t) (A_n : matrix) : bool :=
  forallb (fun row => (length row =? nat_sum (mixture.n mx))%nat) A_n.

(** The errors that [__reweight__] and numpy raise by themselves. *)
Definition own_error (e : exn) : Prop := e = ValueError \/ e = IndexError.

(** ** The solver, from the specification *)

(** Modelled from the spec: the solver [pymbar.mbar.MBAR] is a
    third-party class, absent from the sources; section 4.1 of the
    specification gives its equations.  [log_denominator U N f] is the
    vector c with c_n = logsumexp_j(log N_j + f_j - U[j][n]). *)
Definition log_denominator (U : matrix) (N : list nat) (fv : vec) : vec :=
  map (fun j =>
         logsumexp
           (map (fun p => xplus (np_log_count (fst (fst p)))
                                (snd (fst p) - nth j (snd p) 0))
                (combine (combine N fv) U)))
      (seq 0 (ncols U)).

(** Modelled from the spec: the right-hand side of the fixed-point system
    of section 4.1,
    f_k = - logsumexp_n [ - U[k][n] - c_n ],  k = 0..K-1. *)
Definition fixed_point_rhs (U : matrix) (N : list nat) (fv : vec) : vec :=
  let c := log_denominator U N fv in
  map (fun row =>
         - logsumexp (map (fun p => Fin (- fst p - snd p)) (combine row c)))
      U.

(** Modelled from the spec: the logarithms of the weights of section 4.1,
    log W[n][k] = f_k - U[k][n] - c_n, with the same c. *)
Definition log_weights (U : matrix) (N : list nat) (fv : vec) : matrix :=
  let c := log_denominator U N fv in
  map (fun p =>
         map (fun q => fst q - nth (fst p) (snd q) 0 - snd p) (combine fv U))
      (combine (seq 0 (ncols U)) c).

(** [np.max(np.abs(a - b))], the maximum absolute change between two
    iterates, and [np.max(np.abs(a))]. *)
Definition max_abs_change (a b : vec) : R :=
  fold_right Rmax 0 (map (fun p => Rabs (fst p - snd p)) (combine a b)).

Definition max_abs (a : vec) : R := fold_right Rmax 0 (map Rabs a).

Definition Rltb (a b : R) : bool := if Rlt_dec a b then true else false.

Definition ConvergenceError : exn := "ConvergenceError"%string.

(** Modelled from the spec: section 4.1 stops the iteration when "the
    maximum absolute or relative change in f between iterations falls
    below tolerance"; the change is compared with the tolerance itself or
    with the tolerance times the largest free energy. *)
Inductive change : Type :=
| Absolute
| Relative.

Definition scale (test : change) (f_new : vec) : R :=
  match test with
  | Absolute => 1
  | Relative => max_abs f_new
  end.

(** Modelled from the spec: the self-consistent iteration of section 4.1,
    f <- right-hand side of the fixed-point system, until the change
    passes the stopping test; it fails with [ConvergenceError] when a
    bounded step count is exceeded. *)
Fixpoint self_consistent_iteration (test : change) (U : matrix)
  (N : list nat) (tol : R) (steps : nat) (fv : vec) : py vec :=
  match steps with
  | O => raise ConvergenceError
  | S steps' =>
      let f_new := fixed_point_rhs U N fv in
      if Rltb (max_abs_change f_new fv) (tol * scale test f_new)
      then ret f_new
      else self_consistent_iteration test U N tol steps' f_new
  end.

(** Modelled from the spec: the solver object after the solve of section
    4.1, with its free energies, its weights and the sample counts. *)
Definition spec_MBAR (test : change) (maximum_iterations : nat) (U : matrix)
  (N : list nat) (tol : R) (initial_f_k : vec) : py mbar_MBAR :=
  fv <- self_consistent_iteration test U N tol maximum_iterations
          initial_f_k ;;
  ret (Build_mbar_MBAR fv (log_weights U N fv)
         (mat_map exp (log_weights U N fv)) N).


(** Modelled from the spec: [(M + M.T) / 2] for a [K x K] array.  Section
    4.1: "Theta must be symmetric to floating tolerance - symmetrize by
    averaging with its transpose if the underlying linear algebra
    introduces asymmetry beyond tolerance"; over the reals every asymmetry
    is beyond tolerance, and the average of a symmetric array is the
    array. *)
Definition symmetrize (K : nat) (M : matrix) : matrix :=
  map (fun i => map (fun j => (entry M i j + entry M j i) / 2) (seq 0 K))
      (seq 0 K).

(** Modelled from the spec: the covariance routine of the solver,
    [pymbar]'s [_computeAsymptoticCovarianceMatrix], absent from the
    sources.  Section 4.1 computes Theta "via the standard MBAR
    delta-method formula operating on W and N_k" (a generalized-inverse
    construction or an SVD-based one, here the parameter [formula]) and
    symmetrizes the result. *)
Definition spec_covariance (formula : matrix -> list nat -> matrix)
  (W : matrix) (N : list nat) : matrix :=
  symmetrize (length N) (formula W N).

(** [U + c] on every entry of every block of a mixture. *)
Definition shift_potentials (c : R) (mx : mixture.t) : mixture.t :=
  mixture.Build (mixture.m mx) (mixture.n mx)
    (map (mat_map (fun x => x + c)) (mixture.u mx))
    (mixture.f mx) (mixture.u0 mx) (mixture.Theta mx) (mixture.Overlap mx).

(** ** Shapes of a mixture *)

(** A mixture of [m] states: a count [n[i]], an initial free energy and
    a block of shape [(m, n[i])] per state, and at least one sample in
    the pool. *)
Definition mixture_wf (mx : mixture.t) : Prop :=
  length (mixture.n mx) = mixture.m mx /\
  length (mixture.u mx) = mixture.m mx /\
  length (mixture.f mx) = mixture.m mx /\
  (forall i, (i < mixture.m mx)%nat ->
     is_matrix (mixture.m mx) (nth i (mixture.n mx) 0%nat)
               (nth i (mixture.u mx) [])) /\
  (0 < nat_sum (mixture.n mx))%nat.

(** A value other than [-inf]. *)
Definition is_fin (a : xfloat) : Prop :=
  match a with Fin _ => True | NegInf => False end.

(** [M[i, j] == M[j, i]] for all [i], [j]. *)
Definition is_symmetric (M : matrix) : Prop :=
  forall i j, entry M i j = entry M j i.

(** The sum over the samples [sum_n W[n][i] * W[n][j]]. *)
Definition weight_product (W : matrix) (i j : nat) : R :=
  Rsum (map (fun row => nth i row 0 * nth j row 0) W).

(** ** A small mixture

    Two states with one and two samples, every reduced potential zero.
    The free energies [0, 0] solve the equations of section 4.1, every
    weight is 1/3. *)
Definition mx0 : mixture.t :=
  mixture.Build 2 [1%nat; 2%nat]
    [ [[0]; [0]]; [[0; 0]; [0; 0]] ]
    [0; 0] [] [] [].

Definition mb0 : mbar_MBAR :=
  Build_mbar_MBAR [0; 0]
    [[- ln 3; - ln 3]; [- ln 3; - ln 3]; [- ln 3; - ln 3]]
    [[/ 3; / 3]; [/ 3; / 3]; [/ 3; / 3]]
    [1%nat; 2%nat].

Definition solve0 : matrix -> list nat -> R -> vec -> py mbar_MBAR :=
  fun _ _ _ _ => ret mb0.

Definition cov0 : matrix -> list nat -> matrix :=
  fun _ _ => [[0; 0]; [0; 0]].

(** A covariance formula whose result is not symmetric. *)
Definition cov_skew : matrix -> list nat -> matrix :=
  fun _ _ => [[0; 1]; [0; 0]].

(** The pooled potentials of [mx0]. *)
Definition U0 : matrix := [[0; 0; 0]; [0; 0; 0]].

(** Queries on the mixture [mx0]: the potentials of a new state, no
    observable, one observable, and one observable with a value missing. *)
Definition unew0 : list matrix := [ [[0]]; [[0; 0]] ].
Definition y_none : list matrix := [ []; [] ].
Definition y_one : list matrix := [ [[5]]; [[6; 7]] ].
Definition y_short : list matrix := [ [[5]]; [[6]] ].

Definition res0 : results.t :=
  results.Build [3; 1] [5; 0] [2; 0]
    [[1; 0; 0; 0]; [0; 1; 0; 0]; [0; 0; 1; 0]; [0; 0; 0; 1]].

Definition est0 : matrix -> matrix -> int_array -> py results.t :=
  fun _ _ _ => ret res0.

Definition est_strict : matrix -> matrix -> int_array -> py results.t :=
  fun _ _ _ => raise DimensionMismatchError.

(** ** Inputs for the edge cases

    A mixture whose second block has one row where the first has two. *)
Definition mx_ragged : mixture.t :=
  mixture.Build 2 [1%nat; 2%nat]
    [ [[0]; [0]]; [[0; 0]] ]
    [0; 0] [] [] [].



(** The solver object of [mx0] in another gauge: every free energy is
    larger by one. *)
Definition mb0_gauge : mbar_MBAR :=
  Build_mbar_MBAR [0 + 1; 0 + 1] (Log_W_nk mb0) (W_nk mb0) (N_k mb0).

Definition solve0_gauge : matrix -> list nat -> R -> vec -> py mbar_MBAR :=
  fun _ _ _ _ => ret mb0_gauge.

(** New potentials with two values for the three samples of [mx0],
    observables whose blocks disagree in their number of rows, and an
    estimator that returns a single free energy. *)
Definition unew_bad : list matrix := [ [[0]]; [[0]] ].
Definition y_ragged : list matrix := [ [[5]]; [[6; 7]; [8; 9]] ].

Definition res_short : results.t :=
  results.Build [3] [5; 0] [2; 0]
    [[1; 0; 0; 0]; [0; 1; 0; 0]; [0; 0; 1; 0]; [0; 0; 0; 1]].

Definition est_short : matrix -> matrix -> int_array -> py results.t :=
  fun _ _ _ => ret res_short.

(** ** The columns of the gradient

    Column [c] of the gradient [G] of [__reweight__] holds a value at one
    row and its opposite at another: +1 at row 2n+1 and -1 at row n+1 for
    column 0; [delta[i]] at row [i] and [-delta[i]] at row [n+1+i] for
    column [i+1]. *)
Definition gradient_row_plus (n c : nat) : nat :=
  match c with
  | O => (2 * n + 1)%nat
  | S i => i
  end.

Definition gradient_row_minus (n c : nat) : nat :=
  match c with
  | O => (n + 1)%nat
  | S i => (n + 1 + i)%nat
  end.

Definition gradient_value (y Amin : vec) (c : nat) : R :=
  match c with
  | O => 1
  | S i => nth i y 0 - nth i Amin 0
  end.

(** The results of an estimator in another gauge: [c] is added to every
    free energy and [d] to every entry of the covariance matrix. *)
Definition shift_results (c d : R) (res : results.t) : results.t :=
  results.Build (map (fun x => x + c) (results.f res))
    (results.observables res) (results.Amin res)
    (mat_map (fun x => x + d) (results.Theta res)).

(** Results of the sizes of the augmented problem of [n] observables. *)
Definition results_fit (n : nat) (res : results.t) : Prop :=
  (n + 1 <= length (results.f res))%nat /\
  (n <= length (results.observables res))%nat /\
  (n <= length (results.Amin res))%nat /\
  is_matrix (2 * (n + 1)) (2 * (n + 1)) (results.Theta res).

Definition est0_shifted : matrix -> matrix -> int_array -> py results.t :=
  fun _ _ _ => ret (shift_results 2 3 res0).

(** An estimator whose observable equals its subtracted minimum. *)
Definition res_const : results.t :=
  results.Build [3; 1] [2; 0] [2; 0]
    [[1; 0; 0; 0]; [0; 1; 0; 0]; [0; 0; 1; 0]; [0; 0; 0; 1]].

Definition est_const : matrix -> matrix -> int_array -> py results.t :=
  fun _ _ _ => ret res_const.

(** * Properties *)

(** ** Lists of reals *)

Lemma Rsum_app (x y : vec) : Rsum (x ++ y) = Rsum x + Rsum y.
Proof.
  induction x as [|a x IH]; simpl; [lra|]. rewrite IH. lra.
Qed.

Lemma Rsum_scale (g : xfloat -> R) (e : R) (l : list xfloat) :
  Rsum (map (fun t => g t * e) l) = Rsum (map g l) * e.
Proof.
  induction l as [|a l IH]; simpl; [lra|]. rewrite IH. lra.
Qed.

Lemma np_exp_nonneg (a : xfloat) : 0 <= np_exp a.
Proof.
  destruct a; simpl; [left; apply exp_pos | lra].
Qed.

Lemma Rsum_np_exp_nonneg (l : list xfloat) : 0 <= Rsum (map np_exp l).
Proof.
  induction l as [|a l IH]; simpl; [lra|].
  pose proof (np_exp_nonneg a). lra.
Qed.

Lemma Rsum_np_exp_pos (l : list xfloat) :
  Exists is_fin l -> 0 < Rsum (map np_exp l).
Proof.
  induction 1 as [a l Ha | a l _ IH]; simpl.
  - destruct a as [x|]; [|contradiction]. simpl.
    pose proof (exp_pos x). pose proof (Rsum_np_exp_nonneg l). lra.
  - pose proof (np_exp_nonneg a). lra.
Qed.

Lemma np_exp_xplus (a : xfloat) (x : R) :
  np_exp (xplus a x) = np_exp a * exp x.
Proof.
  destruct a; simpl; [apply exp_plus | lra].
Qed.

Lemma exp_neg_logsumexp (l : list xfloat) :
  Exists is_fin l -> Rsum (map np_exp l) * exp (- logsumexp l) = 1.
Proof.
  intros H. apply Rsum_np_exp_pos in H. unfold logsumexp.
  rewrite exp_Ropp, exp_ln by assumption. field. lra.
Qed.

(** ** The error monad *)

Lemma getitem_ok {A : Type} (v : list A) (i : nat) (d : A) :
  (i < length v)%nat -> getitem v i = inr (nth i v d).
Proof.
  intros H. unfold getitem.
  destruct (nth_error v i) as [x|] eqn:E.
  - rewrite (nth_error_nth _ _ d E). reflexivity.
  - apply nth_error_None in E. lia.
Qed.

Lemma getitem_err {A : Type} (v : list A) (i : nat) (e : exn) :
  getitem v i = inl e -> e = IndexError.
Proof.
  unfold getitem. destruct (nth_error v i); [discriminate|].
  intros H. injection H as <-. reflexivity.
Qed.

Lemma map_py_ok {A B : Type} (g : A -> py B) (h : A -> B) (l : list A) :
  (forall a, In a l -> g a = inr (h a)) -> map_py g l = inr (map h l).
Proof.
  induction l as [|a l IH]; intros H; simpl; [reflexivity|].
  rewrite (H a) by (left; reflexivity). simpl.
  rewrite IH by (intros b Hb; apply H; right; exact Hb). reflexivity.
Qed.

(** ** [__initialize__] *)

Section InitializeFacts.

Variable MBAR_solve : matrix -> list nat -> R -> vec -> py mbar_MBAR.
Variable cov : matrix -> list nat -> matrix.

(** What a successful run of [__initialize__] has computed. *)
Lemma initialize_inv (tol : R) (mx mx' : mixture.t) (P : list matrix) :
  length (mixture.u mx) = mixture.m mx ->
  __initialize__ MBAR_solve cov tol mx = inr (mx', P) ->
  exists U mb,
    hstack (mixture.u mx) = inr U /\
    MBAR_solve U (mixture.n mx) tol (mixture.f mx) = inr mb /\
    mx' = mixture.Build (mixture.m mx) (mixture.n mx) (mixture.u mx)
            (f_k mb)
            (map (u0_of (flnpi_of (f_k mb) (mixture.n mx))) (mixture.u mx))
            (cov (mat_map exp (Log_W_nk mb)) (N_k mb))
            (row_scale (map INR (N_k mb))
               (matmul (transpose (W_nk mb)) (W_nk mb))) /\
    P = map (fun i =>
               let ui := nth i (mixture.u mx) [] in
               let flnpi := flnpi_of (f_k mb) (mixture.n mx) in
               P_of flnpi ui (u0_of flnpi ui))
            (seq 0 (mixture.m mx)).
Proof.
  intros Hm. unfold __initialize__.
  destruct (hstack (mixture.u mx)) as [e|U] eqn:EU; simpl; [discriminate|].
  destruct (MBAR_solve U (mixture.n mx) tol (mixture.f mx)) as [e|mb] eqn:Emb;
    simpl; [discriminate|].
  set (flnpi := flnpi_of (f_k mb) (mixture.n mx)).
  rewrite (map_py_ok _ (fun i => P_of flnpi (nth i (mixture.u mx) [])
                                   (u0_of flnpi (nth i (mixture.u mx) [])))).
  - simpl. intros H. injection H as <- <-.
    exists U, mb. repeat split; try reflexivity; assumption.
  - intros i Hi. apply in_seq in Hi. cbv beta.
    rewrite (getitem_ok (mixture.u mx) i []) by lia.
    unfold bind at 1.
    rewrite (getitem_ok _ i (u0_of flnpi [])) by (rewrite length_map; lia).
    rewrite map_nth. reflexivity.
Qed.

End InitializeFacts.

(** ** Entries of broadcast arrays *)

Lemma nth_map_in {A B : Type} (g : A -> B) (l : list A) (j : nat)
  (d : B) (d' : A) :
  (j < length l)%nat -> nth j (map g l) d = g (nth j l d').
Proof.
  intros H. rewrite (nth_indep _ d (g d')) by (rewrite length_map; exact H).
  apply map_nth.
Qed.

Lemma nth_map_combine {A B C : Type} (g : A * B -> C) (a : list A)
  (b : list B) (j : nat) (d : C) (da : A) (db : B) :
  (j < length a)%nat -> (j < length b)%nat ->
  nth j (map g (combine a b)) d = g (nth j a da, nth j b db).
Proof.
  revert b j. induction a as [|x a IH]; intros [|y b] [|j] Ha Hb;
    simpl in *; try lia; [reflexivity|].
  apply IH; lia.
Qed.

Lemma column_exp_plus_row (X : list (list xfloat)) (v : vec) (c j : nat) :
  Forall (fun row => length row = c) X -> length v = c -> (j < c)%nat ->
  column j (mat_map np_exp (plus_row X v)) =
  map (fun t => np_exp t * exp (nth j v 0)) (xcolumn j X).
Proof.
  intros HX Hv Hj. induction HX as [|row X Hrow _ IH]; [reflexivity|].
  simpl. rewrite IH. f_equal.
  rewrite (nth_map_in _ _ _ _ NegInf)
    by (rewrite length_map, length_combine; lia).
  rewrite (nth_map_combine _ _ _ _ _ NegInf 0) by lia.
  apply np_exp_xplus.
Qed.

Lemma col_minus_rows (a : list xfloat) (M : matrix) (c : nat) :
  Forall (fun row => length row = c) M ->
  Forall (fun row => length row = c) (col_minus a M).
Proof.
  intros HM. revert a. induction HM as [|row M Hrow _ IH]; intros [|x a];
    simpl; constructor.
  - rewrite length_map. exact Hrow.
  - apply IH.
Qed.

Lemma xcolumn_col_minus (a : list xfloat) (M : matrix) (c j : nat) :
  Forall (fun row => length row = c) M -> (j < c)%nat ->
  xcolumn j (col_minus a M) =
  map (fun p => xplus (fst p) (- nth j (snd p) 0)) (combine a M).
Proof.
  intros HM Hj. revert a. induction HM as [|row M Hrow _ IH]; intros [|x a];
    simpl; try reflexivity.
  f_equal; [|apply IH].
  apply (nth_map_in (fun y => xplus x (- y))). lia.
Qed.

Lemma ncols_col_minus (a : list xfloat) (M : matrix) :
  a <> [] -> ncols (col_minus a M) = ncols M.
Proof.
  destruct a as [|x a]; [congruence|]. intros _.
  destruct M as [|row M]; [reflexivity|].
  unfold ncols. simpl. apply length_map.
Qed.

Lemma is_fin_xplus (a : xfloat) (x : R) : is_fin a -> is_fin (xplus a x).
Proof. destruct a; simpl; trivial. Qed.

Lemma Exists_fin_combine {B : Type} (g : B -> R) (a : list xfloat)
  (M : list B) :
  length a = length M -> Exists is_fin a ->
  Exists is_fin (map (fun p => xplus (fst p) (g (snd p))) (combine a M)).
Proof.
  intros Hlen H. revert M Hlen.
  induction H as [x a Hx | x a _ IH]; intros [|row M] Hlen;
    simpl in *; try lia.
  - left. apply is_fin_xplus, Hx.
  - right. apply IH. lia.
Qed.

Lemma nat_sum_pos_Exists (l : list nat) :
  (0 < nat_sum l)%nat -> Exists (fun k => k <> 0%nat) l.
Proof.
  induction l as [|k l IH]; simpl; [lia|]. intros H.
  destruct k as [|k]; [right; apply IH; exact H | left; lia].
Qed.

Lemma length_flnpi_of (fv : vec) (nv : list nat) :
  length fv = length nv -> length (flnpi_of fv nv) = length nv.
Proof.
  intros H. unfold flnpi_of. rewrite length_map, length_combine. lia.
Qed.

Lemma flnpi_has_fin (fv : vec) (nv : list nat) :
  length fv = length nv -> (0 < nat_sum nv)%nat ->
  Exists is_fin (flnpi_of fv nv).
Proof.
  intros Hlen Hpos. apply nat_sum_pos_Exists in Hpos. unfold flnpi_of.
  generalize (nat_sum nv). intros N. revert fv Hlen.
  induction Hpos as [k l Hk | k l _ IH]; intros [|x fv] Hlen;
    simpl in *; try lia.
  - left. unfold np_log_ratio.
    destruct (Nat.eqb_spec k 0); [contradiction|]. exact I.
  - right. apply IH. lia.
Qed.

(** The sum over the states of one column of a block of [P]. *)
Lemma P_of_column_sum (flnpi : list xfloat) (ui : matrix) (c j : nat) :
  is_matrix (length flnpi) c ui -> Exists is_fin flnpi -> (j < c)%nat ->
  Rsum (column j (P_of flnpi ui (u0_of flnpi ui))) = 1.
Proof.
  intros [Hrows Hcols] Hfin Hj.
  assert (Hne : flnpi <> []) by (intros ->; inversion Hfin).
  assert (Hc : ncols (col_minus flnpi ui) = c).
  { rewrite ncols_col_minus by exact Hne.
    destruct ui as [|row ui].
    - destruct flnpi; [congruence | discriminate].
    - inversion Hcols; subst. reflexivity. }
  unfold P_of.
  rewrite (column_exp_plus_row _ _ c); try exact Hj.
  - rewrite Rsum_scale. unfold u0_of, logsumexp_axis0. rewrite Hc.
    rewrite (nth_map_in Ropp _ _ _ 0)
      by (rewrite length_map, length_seq; exact Hj).
    rewrite (nth_map_in _ _ _ _ 0%nat) by (rewrite length_seq; exact Hj).
    rewrite seq_nth by exact Hj. simpl.
    apply exp_neg_logsumexp.
    rewrite (xcolumn_col_minus _ _ c) by assumption.
    apply (Exists_fin_combine (fun row => - nth j row 0)); auto.
  - apply col_minus_rows, Hcols.
  - unfold u0_of, logsumexp_axis0. rewrite !length_map, length_seq. exact Hc.
Qed.

(** C10.  After a successful [__initialize__] of a well-shaped mixture
    (with the solver returning one free energy per state), every column
    of every block of [self.P] sums to one over the states: for each
    block [i] and each sample [j] of the block, sum_k P[i][k][j] = 1. *)
Theorem P_column_normalized
  (MBAR_solve : matrix -> list nat -> R -> vec -> py mbar_MBAR)
  (cov : matrix -> list nat -> matrix)
  (tol : R) (mx mx' : mixture.t) (P : list matrix) (i j : nat) :
  mixture_wf mx ->
  __initialize__ MBAR_solve cov tol mx = inr (mx', P) ->
  length (mixture.f mx') = mixture.m mx ->
  (i < mixture.m mx)%nat -> (j < nth i (mixture.n mx) 0)%nat ->
  Rsum (column j (nth i P [])) = 1.
Proof.
  intros (Hn & Hu & _ & Hblocks & Hpos) Hinit Hf Hi Hj.
  destruct (initialize_inv _ _ _ _ _ _ Hu Hinit)
    as (U & mb & _ & _ & -> & ->).
  simpl in Hf.
  rewrite (nth_map_in _ _ _ _ 0%nat) by (rewrite length_seq; exact Hi).
  rewrite seq_nth by exact Hi. simpl.
  apply (P_of_column_sum _ _ (nth i (mixture.n mx) 0%nat)).
  - rewrite length_flnpi_of by lia. rewrite Hn. apply Hblocks, Hi.
  - apply flnpi_has_fin; [lia | exact Hpos].
  - exact Hj.
Qed.

Lemma mx0_wf : mixture_wf mx0.
Proof.
  unfold mixture_wf, mx0; simpl. repeat split; try lia.
  - destruct i as [|[|i]]; simpl; try lia; reflexivity.
  - destruct i as [|[|i]]; simpl; try lia; repeat constructor.
Qed.

Lemma P_column_normalized_witness :
  exists mx' P,
    __initialize__ solve0 cov0 1 mx0 = inr (mx', P) /\
    Rsum (column 1 (nth 1 P [])) = 1.
Proof.
  eexists _, _. split; [reflexivity|].
  apply (P_column_normalized solve0 cov0 1 mx0 _ _ 1 1 mx0_wf eq_refl);
    simpl; solve [reflexivity | lia].
Defined.

(** ** The overlap matrix *)

Lemma ncols_is_matrix {A : Type} (r c : nat) (M : list (list A)) :
  is_matrix r c M -> (0 < r)%nat -> ncols M = c.
Proof.
  intros [Hr Hc] Hpos. destruct M as [|row M]; simpl in *; [lia|].
  inversion Hc; subst. reflexivity.
Qed.

Lemma dot_columns (W : matrix) (i j : nat) :
  dot (column i W) (column j W) = weight_product W i j.
Proof.
  unfold dot, weight_product, column.
  induction W as [|row W IH]; simpl; [reflexivity|].
  unfold Rsum in *. rewrite IH. reflexivity.
Qed.

Lemma entry_matmul (A B : matrix) (i j : nat) :
  (i < length A)%nat -> (j < ncols B)%nat ->
  entry (matmul A B) i j = dot (nth i A []) (column j B).
Proof.
  intros Hi Hj. unfold entry, matmul.
  rewrite (nth_map_in _ A i [] []) by exact Hi.
  rewrite (nth_map_in _ _ _ _ 0%nat) by (rewrite length_seq; exact Hj).
  rewrite seq_nth by exact Hj. reflexivity.
Qed.

Lemma nth_transpose (M : matrix) (i : nat) :
  (i < ncols M)%nat -> nth i (transpose M) [] = column i M.
Proof.
  intros Hi. unfold transpose.
  rewrite (nth_map_in _ _ _ _ 0%nat) by (rewrite length_seq; exact Hi).
  rewrite seq_nth by exact Hi. reflexivity.
Qed.

Lemma length_transpose (M : matrix) : length (transpose M) = ncols M.
Proof. unfold transpose. rewrite length_map, length_seq. reflexivity. Qed.

Lemma entry_row_scale (v : vec) (M : matrix) (i j : nat) :
  (i < length M)%nat -> (j < length v)%nat ->
  (j < length (nth i M []))%nat ->
  entry (row_scale v M) i j = nth j v 0 * entry M i j.
Proof.
  intros Hi Hv Hj. unfold entry, row_scale.
  rewrite (nth_map_in _ M i [] []) by exact Hi.
  rewrite (nth_map_combine _ _ _ _ _ 0 0) by assumption. reflexivity.
Qed.

Lemma length_matmul_row (A B : matrix) (i : nat) :
  (i < length A)%nat -> length (nth i (matmul A B) []) = ncols B.
Proof.
  intros Hi. unfold matmul. rewrite (nth_map_in _ A i [] []) by exact Hi.
  rewrite length_map, length_seq. reflexivity.
Qed.

(** The entries of [N_k * np.matmul(W.T, W)]. *)
Lemma entry_overlap (Nk : list nat) (W : matrix) (Ns K i j : nat) :
  is_matrix Ns K W -> (0 < Ns)%nat -> length Nk = K ->
  (i < K)%nat -> (j < K)%nat ->
  entry (row_scale (map INR Nk) (matmul (transpose W) W)) i j =
  INR (nth j Nk 0%nat) * weight_product W i j.
Proof.
  intros HW Hpos HN Hi Hj.
  pose proof (ncols_is_matrix _ _ _ HW Hpos) as Hc.
  rewrite entry_row_scale.
  - rewrite entry_matmul by (rewrite ?length_transpose; lia).
    rewrite nth_transpose by lia. rewrite dot_columns.
    rewrite (nth_map_in INR _ _ _ 0%nat) by lia. reflexivity.
  - unfold matmul. rewrite length_map, length_transpose. lia.
  - rewrite length_map. lia.
  - rewrite length_matmul_row by (rewrite length_transpose; lia). lia.
Qed.

Lemma weight_product_comm (W : matrix) (i j : nat) :
  weight_product W i j = weight_product W j i.
Proof.
  unfold weight_product. f_equal. apply map_ext. intros row. apply Rmult_comm.
Qed.

(** C5.  The overlap matrix that [__initialize__] stores has the entries
    O[i][j] = N_j * sum_n W[n][i] * W[n][j], where W (of shape N x K,
    N > 0) and the counts N_k are those of the solver object. *)
Theorem overlap_entries
  (MBAR_solve : matrix -> list nat -> R -> vec -> py mbar_MBAR)
  (cov : matrix -> list nat -> matrix)
  (tol : R) (mx mx' : mixture.t) (P : list matrix) (U : matrix)
  (mb : mbar_MBAR) (Ns K i j : nat) :
  length (mixture.u mx) = mixture.m mx ->
  hstack (mixture.u mx) = inr U ->
  MBAR_solve U (mixture.n mx) tol (mixture.f mx) = inr mb ->
  __initialize__ MBAR_solve cov tol mx = inr (mx', P) ->
  is_matrix Ns K (W_nk mb) -> (0 < Ns)%nat -> length (N_k mb) = K ->
  (i < K)%nat -> (j < K)%nat ->
  entry (mixture.Overlap mx') i j =
  INR (nth j (N_k mb) 0%nat) * weight_product (W_nk mb) i j.
Proof.
  intros Hu HU Hmb Hinit HW Hpos HN Hi Hj.
  destruct (initialize_inv _ _ _ _ _ _ Hu Hinit)
    as (U' & mb' & HU' & Hmb' & -> & _).
  rewrite HU in HU'. injection HU' as <-.
  rewrite Hmb in Hmb'. injection Hmb' as <-.
  simpl. apply (entry_overlap _ _ Ns K); assumption.
Qed.

Lemma overlap_entries_witness :
  exists mx' P,
    __initialize__ solve0 cov0 1 mx0 = inr (mx', P) /\
    entry (mixture.Overlap mx') 0 1 =
    INR (nth 1 (N_k mb0) 0%nat) * weight_product (W_nk mb0) 0 1.
Proof.
  eexists _, _. split; [reflexivity|].
  apply (overlap_entries solve0 cov0 1 mx0 _ _ _ mb0 3 2 0 1
           eq_refl eq_refl eq_refl eq_refl).
  - split; [reflexivity | repeat constructor].
  - lia.
  - reflexivity.
  - lia.
  - lia.
Defined.

(** C6, as stated, fails: for the mixture [mx0] with the counts [1, 2]
    and the weights 1/3 of its solve ([initialize_mx0] below) the overlap
    matrix is not symmetric, O[0][1] = 2/3 and O[1][0] = 1/3. *)
Lemma overlap_not_symmetric :
  exists mx' P,
    __initialize__ solve0 cov0 1 mx0 = inr (mx', P) /\
    entry (mixture.Overlap mx') 0 1 = 2 / 3 /\
    entry (mixture.Overlap mx') 1 0 = 1 / 3 /\
    ~ is_symmetric (mixture.Overlap mx').
Proof.
  eexists _, _. split; [reflexivity|].
  cbn [mixture.Overlap].
  set (O := row_scale _ _).
  assert (H01 : entry O 0 1 = 2 / 3).
  { unfold O, entry, row_scale, matmul, transpose, column, dot, Rsum; simpl.
    field. }
  assert (H10 : entry O 1 0 = 1 / 3).
  { unfold O, entry, row_scale, matmul, transpose, column, dot, Rsum; simpl.
    field. }
  repeat split; try assumption.
  intros Hsym. specialize (Hsym 0%nat 1%nat). rewrite H01, H10 in Hsym. lra.
Qed.

(** The average of an array with its transpose is symmetric, whatever the
    array. *)
Lemma entry_symmetrize (K : nat) (M : matrix) (i j : nat) :
  (i < K)%nat -> (j < K)%nat ->
  entry (symmetrize K M) i j = (entry M i j + entry M j i) / 2.
Proof.
  intros Hi Hj. unfold symmetrize. unfold entry at 1.
  rewrite (nth_map_in _ _ _ _ 0%nat) by (rewrite length_seq; exact Hi).
  rewrite (nth_map_in _ _ _ _ 0%nat) by (rewrite length_seq; exact Hj).
  rewrite !seq_nth by assumption. reflexivity.
Qed.

Lemma entry_symmetrize_out (K : nat) (M : matrix) (i j : nat) :
  (K <= i)%nat \/ (K <= j)%nat -> entry (symmetrize K M) i j = 0.
Proof.
  intros H. unfold symmetrize, entry.
  destruct (Nat.lt_ge_cases i K) as [Hi|Hi].
  - rewrite (nth_map_in _ _ _ _ 0%nat) by (rewrite length_seq; exact Hi).
    apply nth_overflow. rewrite length_map, length_seq. lia.
  - rewrite (nth_overflow _ []) by (rewrite length_map, length_seq; exact Hi).
    destruct j; reflexivity.
Qed.

Lemma symmetrize_symmetric (K : nat) (M : matrix) :
  is_symmetric (symmetrize K M).
Proof.
  intros i j.
  destruct (Nat.lt_ge_cases i K) as [Hi|Hi];
    [destruct (Nat.lt_ge_cases j K) as [Hj|Hj]|].
  - rewrite !entry_symmetrize by assumption. lra.
  - rewrite !entry_symmetrize_out by (left + right; exact Hj). reflexivity.
  - rewrite !entry_symmetrize_out by (left + right; exact Hi). reflexivity.
Qed.

(** C6, amended.  [__initialize__] stores the matrix of the solver's
    covariance routine unchanged; that routine symmetrizes its result, so
    Theta[i][j] = Theta[j][i] for all [i], [j].  The overlap matrix
    satisfies N_i * O[i][j] = N_j * O[j][i], and hence O[i][j] = O[j][i]
    for every pair of states with equal counts. *)
Theorem theta_overlap_symmetry
  (MBAR_solve : matrix -> list nat -> R -> vec -> py mbar_MBAR)
  (formula : matrix -> list nat -> matrix)
  (tol : R) (mx mx' : mixture.t) (P : list matrix) (U : matrix)
  (mb : mbar_MBAR) (Ns K : nat) :
  length (mixture.u mx) = mixture.m mx ->
  hstack (mixture.u mx) = inr U ->
  MBAR_solve U (mixture.n mx) tol (mixture.f mx) = inr mb ->
  __initialize__ MBAR_solve (spec_covariance formula) tol mx
  = inr (mx', P) ->
  is_matrix Ns K (W_nk mb) -> (0 < Ns)%nat -> length (N_k mb) = K ->
  mixture.Theta mx' =
    spec_covariance formula (mat_map exp (Log_W_nk mb)) (N_k mb) /\
  is_symmetric (mixture.Theta mx') /\
  (forall i j, (i < K)%nat -> (j < K)%nat ->
     entry (mixture.Theta mx') i j =
     (entry (formula (mat_map exp (Log_W_nk mb)) (N_k mb)) i j
      + entry (formula (mat_map exp (Log_W_nk mb)) (N_k mb)) j i) / 2) /\
  (forall i j, (i < K)%nat -> (j < K)%nat ->
     INR (nth i (N_k mb) 0%nat) * entry (mixture.Overlap mx') i j =
     INR (nth j (N_k mb) 0%nat) * entry (mixture.Overlap mx') j i) /\
  (forall i j, (i < K)%nat -> (j < K)%nat ->
     nth i (N_k mb) 0%nat = nth j (N_k mb) 0%nat ->
     entry (mixture.Overlap mx') i j = entry (mixture.Overlap mx') j i).
Proof.
  intros Hu HU Hmb Hinit HW Hpos HN.
  destruct (initialize_inv _ _ _ _ _ _ Hu Hinit)
    as (U' & mb' & HU' & Hmb' & -> & _).
  rewrite HU in HU'. injection HU' as <-.
  rewrite Hmb in Hmb'. injection Hmb' as <-.
  cbn [mixture.Theta mixture.Overlap].
  split; [reflexivity|].
  split; [apply symmetrize_symmetric|].
  split; [|split].
  - intros i j Hi Hj. unfold spec_covariance. rewrite HN.
    apply entry_symmetrize; assumption.
  - intros i j Hi Hj.
    rewrite !(entry_overlap _ _ Ns K) by assumption.
    rewrite (weight_product_comm _ j i). ring.
  - intros i j Hi Hj Heq.
    rewrite !(entry_overlap _ _ Ns K) by assumption.
    rewrite (weight_product_comm _ j i), Heq. reflexivity.
Qed.

(** ** [__reweight__] *)

Lemma getitem2_ok (M : matrix) (i j : nat) :
  (i < length M)%nat -> (j < length (nth i M []))%nat ->
  getitem2 M i j = inr (entry M i j).
Proof.
  intros Hi Hj. unfold getitem2.
  rewrite (getitem_ok M i []) by exact Hi. simpl.
  rewrite (getitem_ok _ j 0) by exact Hj. reflexivity.
Qed.

Lemma hstack_no_rows (y : list matrix) :
  y <> [] -> Forall (fun b => nrows b = 0%nat) y -> hstack y = inr [].
Proof.
  intros Hne Hall. destruct y as [|b bs]; [congruence|].
  inversion Hall as [|? ? Hb Hbs]; subst. unfold hstack.
  replace (forallb (fun b' => (nrows b' =? nrows b)%nat) bs) with true.
  - unfold hstack_rows. simpl hd. rewrite Hb. reflexivity.
  - symmetry. apply forallb_forall. intros b' Hin.
    rewrite Forall_forall in Hbs. rewrite (Hbs b' Hin), Hb. reflexivity.
Qed.

(** C2.  A query without observables (every block of [y] has no row) is
    accepted: when the two rows of potentials can be stacked and the
    estimator returns two free energies and a covariance matrix of at
    least 2 x 2, [__reweight__] returns the vector [f[0] - f[1]] of the
    target (row 0) and the reference (row 1) and the 1 x 1 matrix
    [[Theta[0][0] + Theta[1][1] - 2 Theta[0][1]]]; the estimator is
    called on the state map [0, 1]. *)
Theorem reweight_no_observables
  (est : matrix -> matrix -> int_array -> py results.t)
  (mx : mixture.t) (u y : list matrix) (ref : nat) (u_ln : matrix)
  (res : results.t) :
  u_ln_of mx u ref = inr u_ln ->
  y <> [] -> Forall (fun b => nrows b = 0%nat) y ->
  est [] u_ln (Int1 [0%nat; 1%nat]) = inr res ->
  (2 <= length (results.f res))%nat ->
  (2 <= length (results.Theta res))%nat ->
  (2 <= length (nth 0 (results.Theta res) []))%nat ->
  (2 <= length (nth 1 (results.Theta res) []))%nat ->
  __reweight__ est mx u y ref =
  inr ([nth 0 (results.f res) 0 - nth 1 (results.f res) 0],
       [[entry (results.Theta res) 0 0 + entry (results.Theta res) 1 1
         - 2 * entry (results.Theta res) 0 1]]).
Proof.
  intros Hu Hne Hy Hest Hf Ht Ht0 Ht1. unfold __reweight__.
  rewrite Hu. simpl. rewrite (hstack_no_rows y Hne Hy). simpl.
  change (smap_of 0) with (Int1 [0%nat; 1%nat]). rewrite Hest. simpl.
  rewrite (getitem_ok _ 0 0), (getitem_ok _ 1 0) by lia. simpl.
  rewrite !getitem2_ok by lia. reflexivity.
Qed.

Lemma reweight_no_observables_witness :
  __reweight__ est0 mx0 unew0 y_none 0 =
  inr ([nth 0 (results.f res0) 0 - nth 1 (results.f res0) 0],
       [[entry (results.Theta res0) 0 0 + entry (results.Theta res0) 1 1
         - 2 * entry (results.Theta res0) 0 1]]).
Proof.
  apply (reweight_no_observables est0 mx0 unew0 y_none 0
           [[0; 0; 0]; [0; 0; 0]] res0).
  - reflexivity.
  - discriminate.
  - repeat constructor.
  - reflexivity.
  - simpl; lia.
  - simpl; lia.
  - simpl; lia.
  - simpl; lia.
Defined.

(** *** Item assignment *)

Lemma length_set_nth {A : Type} (i : nat) (x : A) (l : list A) :
  length (set_nth i x l) = length l.
Proof.
  revert i. induction l as [|h t IH]; intros [|i]; simpl; auto.
Qed.

Lemma nth_set_nth {A : Type} (i r : nat) (x d : A) (l : list A) :
  (i < length l)%nat ->
  nth r (set_nth i x l) d = if (r =? i)%nat then x else nth r l d.
Proof.
  revert i r. induction l as [|h t IH]; intros [|i] [|r] H; simpl in *;
    try lia; try reflexivity.
  apply IH. lia.
Qed.

Lemma setitem2_spec (M : matrix) (nr nc i j : nat) (x : R) :
  is_matrix nr nc M -> (i < nr)%nat -> (j < nc)%nat ->
  exists M',
    setitem2 M i j x = inr M' /\ is_matrix nr nc M' /\
    forall r c, entry M' r c =
                if ((r =? i) && (c =? j))%nat then x else entry M r c.
Proof.
  intros [Hr Hc] Hi Hj.
  assert (Hrow : length (nth i M []) = nc).
  { rewrite Forall_forall in Hc. apply Hc, nth_In. lia. }
  exists (set_nth i (set_nth j x (nth i M [])) M). split; [|split].
  - unfold setitem2. destruct (nth_error M i) as [row|] eqn:E.
    + rewrite (nth_error_nth _ _ [] E) in *.
      destruct (Nat.ltb_spec j (length row)); [reflexivity | lia].
    + apply nth_error_None in E. lia.
  - split; [rewrite length_set_nth; exact Hr|].
    apply Forall_forall. intros row Hin.
    destruct (In_nth _ _ [] Hin) as (r & Hlt & <-).
    rewrite length_set_nth in Hlt.
    rewrite nth_set_nth by lia.
    destruct (r =? i)%nat.
    * rewrite length_set_nth. exact Hrow.
    * rewrite Forall_forall in Hc. apply Hc, nth_In. exact Hlt.
  - intros r c. unfold entry. rewrite nth_set_nth by lia.
    destruct (Nat.eqb_spec r i) as [->|Hne]; simpl; [|reflexivity].
    rewrite nth_set_nth by lia. reflexivity.
Qed.

Lemma entry_zeros (nr nc r c : nat) : entry (zeros nr nc) r c = 0.
Proof.
  unfold entry, zeros. revert r. induction nr as [|nr IH]; intros r; simpl.
  - destruct r, c; reflexivity.
  - destruct r as [|r]; [|apply IH].
    clear IH. revert c. induction nc as [|nc IH]; intros [|c]; simpl; auto.
Qed.

Lemma zeros_is_matrix (nr nc : nat) : is_matrix nr nc (zeros nr nc).
Proof.
  unfold zeros. split; [apply repeat_length|].
  apply Forall_forall. intros row Hin. apply repeat_spec in Hin. subst.
  apply repeat_length.
Qed.

(** *** The gradient *)

(** The loop of [__reweight__] over any range of observables: column
    [i+1] is written for every [i] of the range, nothing else is. *)
Lemma fill_G_spec (n : nat) (delta : vec) (range : list nat) (G : matrix) :
  is_matrix (2 * (n + 1)) (n + 1) G ->
  Forall (fun i => (i < n)%nat) range -> (n <= length delta)%nat ->
  exists G',
    fill_G n delta range G = inr G' /\
    is_matrix (2 * (n + 1)) (n + 1) G' /\
    forall r c,
      entry G' r c =
      match c with
      | O => entry G r c
      | S i =>
          if existsb (Nat.eqb i) range then
            if (r =? i)%nat then nth i delta 0
            else if (r =? n + 1 + i)%nat then - nth i delta 0
            else entry G r c
          else entry G r c
      end.
Proof.
  intros HG Hrange Hdelta. revert G HG.
  induction Hrange as [|i rest Hi _ IH]; intros G HG.
  - exists G. split; [reflexivity|]. split; [exact HG|].
    intros r [|c]; reflexivity.
  - simpl fill_G. rewrite (getitem_ok delta i 0) by lia. simpl.
    destruct (setitem2_spec G _ _ i (i + 1) (nth i delta 0) HG)
      as (G1 & E1 & HG1 & H1); [lia | lia |].
    rewrite E1. simpl.
    destruct (setitem2_spec G1 _ _ (n + 1 + i) (i + 1) (- nth i delta 0) HG1)
      as (G2 & E2 & HG2 & H2); [lia | lia |].
    rewrite E2. simpl.
    destruct (IH G2 HG2) as (G' & E' & HG' & H').
    exists G'. split; [exact E'|]. split; [exact HG'|].
    intros r c. rewrite H'. destruct c as [|c].
    + rewrite H2, H1.
      replace (0 =? i + 1)%nat with false by (symmetry; apply Nat.eqb_neq; lia).
      rewrite !andb_false_r. reflexivity.
    + cbn [existsb]. rewrite H2, H1.
      destruct (Nat.eqb_spec c i) as [->|Hc]; cbn [orb].
      * replace (S i =? i + 1)%nat with true
          by (symmetry; apply Nat.eqb_eq; lia).
        rewrite !andb_true_r.
        destruct (existsb (Nat.eqb i) rest);
          destruct (Nat.eqb_spec r i), (Nat.eqb_spec r (n + 1 + i));
          try reflexivity; lia.
      * replace (S c =? i + 1)%nat with false
          by (symmetry; apply Nat.eqb_neq; lia).
        rewrite !andb_false_r. reflexivity.
Qed.

Lemma existsb_eqb_seq (i n : nat) :
  (i < n)%nat -> existsb (Nat.eqb i) (seq 0 n) = true.
Proof.
  intros H. apply existsb_exists. exists i. split.
  - apply in_seq. lia.
  - apply Nat.eqb_refl.
Qed.

Lemma np_sub_same_length (a b : vec) :
  length a = length b ->
  np_sub a b = inr (map (fun p => fst p - snd p) (combine a b)).
Proof.
  intros H. unfold np_sub. rewrite H, Nat.eqb_refl. reflexivity.
Qed.

(** The gradient that [__reweight__] builds for [n >= 1] observables has
    the entries that the specification lists. *)
Lemma gradient_spec (n : nat) (yu Amin : vec) :
  (1 <= n)%nat -> length yu = n -> (n <= length Amin)%nat ->
  exists G,
    gradient n yu Amin = inr G /\
    is_matrix (2 * (n + 1)) (n + 1) G /\
    forall r c, (c < n + 1)%nat ->
      entry G r c = jacobian_entry n yu Amin r c.
Proof.
  intros Hn Hy HA. unfold gradient.
  destruct (setitem2_spec _ _ _ (n + 1) 0 (-1)
              (zeros_is_matrix (2 * (n + 1)) (n + 1)))
    as (G1 & E1 & HG1 & H1); [lia | lia |].
  rewrite E1. cbn [bind].
  destruct (setitem2_spec G1 _ _ (2 * n + 1) 0 1 HG1)
    as (G2 & E2 & HG2 & H2); [lia | lia |].
  rewrite E2. cbn [bind].
  rewrite np_sub_same_length by (rewrite length_firstn; lia). cbn [bind].
  set (delta := map _ _).
  assert (Hlen : length delta = n).
  { unfold delta. rewrite length_map, length_combine, length_firstn. lia. }
  destruct (fill_G_spec n delta (seq 0 n) G2 HG2) as (G & E & HG & H).
  - apply Forall_forall. intros i Hi. apply in_seq in Hi. lia.
  - lia.
  - exists G. split; [exact E|]. split; [exact HG|].
    intros r c Hc. rewrite H. destruct c as [|i]; cbn [jacobian_entry].
    + rewrite H2, H1, entry_zeros. rewrite !andb_true_r.
      destruct (Nat.eqb_spec r (n + 1)), (Nat.eqb_spec r (2 * n + 1));
        try reflexivity; lia.
    + rewrite existsb_eqb_seq by lia.
      assert (Hd : nth i delta 0 = nth i yu 0 - nth i Amin 0).
      { unfold delta.
        rewrite (nth_map_combine _ _ _ _ _ 0 0)
          by (rewrite ?length_firstn; lia).
        simpl. rewrite nth_firstn.
        destruct (Nat.ltb_spec i n); [reflexivity | lia]. }
      rewrite Hd, H2, H1, entry_zeros.
      replace (S i =? 0)%nat with false by reflexivity.
      rewrite !andb_false_r. reflexivity.
Qed.

Lemma column_matmul (A B : matrix) (j : nat) :
  (j < ncols B)%nat ->
  column j (matmul A B) = map (fun row => dot row (column j B)) A.
Proof.
  intros Hj. unfold column at 1, matmul. rewrite map_map.
  apply map_ext. intros row.
  rewrite (nth_map_in _ _ _ _ 0%nat) by (rewrite length_seq; exact Hj).
  rewrite seq_nth by exact Hj. reflexivity.
Qed.

Lemma ncols_matmul (A B : matrix) :
  A <> [] -> ncols (matmul A B) = ncols B.
Proof.
  destruct A as [|row A]; [congruence|]. intros _.
  unfold ncols, matmul. simpl. rewrite length_map, length_seq. reflexivity.
Qed.

Lemma ncols_transpose (M : matrix) :
  (0 < ncols M)%nat -> ncols (transpose M) = nrows M.
Proof.
  intros H. unfold transpose. unfold ncols at 1.
  destruct (ncols M) as [|c]; [lia|]. simpl.
  unfold column. apply length_map.
Qed.

Lemma jacobian_entry_firstn (n : nat) (y Amin : vec) (r c : nat) :
  (c < n + 1)%nat ->
  jacobian_entry n (firstn n y) Amin r c = jacobian_entry n y Amin r c.
Proof.
  intros Hc. destruct c as [|i]; [reflexivity|]. simpl.
  rewrite nth_firstn. destruct (Nat.ltb_spec i n); [reflexivity | lia].
Qed.

(** C3.  For a query with [n >= 1] observables on which the estimator
    returns arrays of the sizes of the augmented problem, [__reweight__]
    returns the covariance G^T Theta G, where Theta is the
    2(n+1) x 2(n+1) matrix of the estimator and the 2(n+1) x (n+1) matrix
    G has the entries of [jacobian_entry]: -1 and +1 at the rows n+1 and
    2n+1 of column 0, y_i - Amin_i at row i and its opposite at row n+1+i
    of column i+1, and zero everywhere else. *)
Theorem reweight_covariance
  (est : matrix -> matrix -> int_array -> py results.t)
  (mx : mixture.t) (u y : list matrix) (ref : nat) (u_ln A_n : matrix)
  (res : results.t) (n : nat) :
  u_ln_of mx u ref = inr u_ln ->
  hstack y = inr A_n -> nrows A_n = n -> (1 <= n)%nat ->
  est A_n u_ln (smap_of n) = inr res ->
  (n + 1 <= length (results.f res))%nat ->
  (n <= length (results.observables res))%nat ->
  (n <= length (results.Amin res))%nat ->
  is_matrix (2 * (n + 1)) (2 * (n + 1)) (results.Theta res) ->
  exists G cov,
    is_matrix (2 * (n + 1)) (n + 1) G /\
    (forall r c, (r < 2 * (n + 1))%nat -> (c < n + 1)%nat ->
       entry G r c =
       jacobian_entry n (results.observables res) (results.Amin res) r c) /\
    __reweight__ est mx u y ref =
      inr ([nth 0 (results.f res) 0 - nth n (results.f res) 0]
             ++ firstn n (results.observables res), cov) /\
    cov = matmul (transpose G) (matmul (results.Theta res) G) /\
    (forall a b, (a < n + 1)%nat -> (b < n + 1)%nat ->
       entry cov a b =
       dot (column a G)
           (map (fun trow => dot trow (column b G)) (results.Theta res))).
Proof.
  intros Hu HA Hrows Hn Hest Hf Hobs HAmin HT.
  destruct (gradient_spec n (firstn n (results.observables res))
              (results.Amin res) Hn)
    as (G & EG & HG & Hentry); [rewrite length_firstn; lia | lia |].
  assert (HcG : ncols G = (n + 1)%nat)
    by (apply (ncols_is_matrix _ _ _ HG); lia).
  assert (HcT : ncols (results.Theta res) = (2 * (n + 1))%nat)
    by (apply (ncols_is_matrix _ _ _ HT); lia).
  assert (HneT : results.Theta res <> []).
  { destruct HT as [HT _]. intros E. rewrite E in HT. simpl in HT. lia. }
  exists G, (matmul (transpose G) (matmul (results.Theta res) G)).
  split; [exact HG|]. split; [|split; [|split; [reflexivity|]]].
  - intros r c _ Hc. rewrite Hentry by exact Hc.
    apply jacobian_entry_firstn, Hc.
  - unfold __reweight__. rewrite Hu. cbn [bind]. rewrite HA. cbn [bind].
    rewrite Hrows, Hest. cbn [bind].
    destruct (Nat.eqb_spec n 0) as [E|_]; [lia|].
    rewrite (getitem_ok _ 0 0), (getitem_ok _ n 0) by lia. cbn [bind].
    rewrite EG. cbn [bind]. unfold multi_dot3.
    rewrite ncols_transpose by lia. rewrite HcT. unfold nrows.
    destruct HG as [HrG _], HT as [HrT _]. rewrite HrG, HrT.
    rewrite Nat.eqb_refl. reflexivity.
  - intros a b Ha Hb.
    rewrite entry_matmul.
    + rewrite nth_transpose by lia.
      rewrite column_matmul by lia. reflexivity.
    + rewrite length_transpose. lia.
    + rewrite ncols_matmul by exact HneT. lia.
Qed.

Lemma reweight_covariance_witness :
  exists G cov,
    is_matrix 4 2 G /\
    (forall r c, (r < 4)%nat -> (c < 2)%nat ->
       entry G r c =
       jacobian_entry 1 (results.observables res0) (results.Amin res0) r c) /\
    __reweight__ est0 mx0 unew0 y_one 0 =
      inr ([nth 0 (results.f res0) 0 - nth 1 (results.f res0) 0]
             ++ firstn 1 (results.observables res0), cov) /\
    cov = matmul (transpose G) (matmul (results.Theta res0) G) /\
    (forall a b, (a < 2)%nat -> (b < 2)%nat ->
       entry cov a b =
       dot (column a G)
           (map (fun trow => dot trow (column b G)) (results.Theta res0))).
Proof.
  apply (reweight_covariance est0 mx0 unew0 y_one 0
           [[0; 0; 0]; [0; 0; 0]] [[5; 6; 7]] res0 1).
  - reflexivity.
  - reflexivity.
  - reflexivity.
  - lia.
  - reflexivity.
  - simpl; lia.
  - simpl; lia.
  - simpl; lia.
  - split; [reflexivity | repeat constructor].
Defined.

(** *** Where an error of [__reweight__] comes from *)

Lemma bind_inl {A B : Type} (c : py A) (k : A -> py B) (e : exn) :
  bind c k = inl e -> c = inl e \/ exists a, c = inr a /\ k a = inl e.
Proof.
  destruct c as [e'|a]; simpl; intros H.
  - left. injection H as <-. reflexivity.
  - right. exists a. split; [reflexivity | exact H].
Qed.

Ltac bind_cases H :=
  let a := fresh "a" in
  let E := fresh "E" in
  apply bind_inl in H; destruct H as [H | (a & E & H)].

Lemma own_error_not_dimension (e : exn) :
  own_error e -> e <> DimensionMismatchError.
Proof. intros [-> | ->]; discriminate. Qed.

Lemma hstack_ragged (b b' : matrix) (bs : list matrix) :
  In b' bs -> nrows b' <> nrows b -> hstack (b :: bs) = inl ValueError.
Proof.
  intros Hin Hne. unfold hstack.
  destruct (forallb (fun x => (nrows x =? nrows b)%nat) bs) eqn:E;
    [|reflexivity].
  rewrite forallb_forall in E. specialize (E b' Hin).
  apply Nat.eqb_eq in E. contradiction.
Qed.

Lemma hstack_err (blocks : list matrix) (e : exn) :
  hstack blocks = inl e -> own_error e.
Proof.
  unfold hstack. destruct blocks as [|b bs].
  - intros H. injection H as <-. left. reflexivity.
  - destruct (forallb (fun b' => (nrows b' =? nrows b)%nat) bs);
      [discriminate|].
    intros H. injection H as <-. left. reflexivity.
Qed.

Lemma getitem_own {A : Type} (v : list A) (i : nat) (e : exn) :
  getitem v i = inl e -> own_error e.
Proof. intros H. right. exact (getitem_err _ _ _ H). Qed.

Lemma map_py_err {A B : Type} (g : A -> py B) (l : list A) (e : exn) :
  (forall a e', g a = inl e' -> own_error e') ->
  map_py g l = inl e -> own_error e.
Proof.
  intros Hg. induction l as [|a l IH]; simpl; [discriminate|]. intros H.
  bind_cases H; [exact (Hg _ _ H)|].
  bind_cases H; [exact (IH H) | discriminate].
Qed.

Lemma u_ln_of_err (mx : mixture.t) (u : list matrix) (ref : nat) (e : exn) :
  u_ln_of mx u ref = inl e -> own_error e.
Proof.
  unfold u_ln_of. intros H.
  bind_cases H; [exact (hstack_err _ _ H)|].
  bind_cases H.
  - bind_cases H.
    + apply (map_py_err _ _ _ (fun x e' => getitem_own x ref e') H).
    + unfold hstack1 in H. destruct a0; [|discriminate].
      injection H as <-. left. reflexivity.
  - unfold stack2 in H. destruct (_ =? _)%nat; [discriminate|].
    injection H as <-. left. reflexivity.
Qed.

Lemma getitem2_err (M : matrix) (i j : nat) (e : exn) :
  getitem2 M i j = inl e -> own_error e.
Proof.
  unfold getitem2. intros H.
  bind_cases H; exact (getitem_own _ _ _ H).
Qed.

Lemma setitem2_err (M : matrix) (i j : nat) (x : R) (e : exn) :
  setitem2 M i j x = inl e -> own_error e.
Proof.
  unfold setitem2. destruct (nth_error M i) as [row|].
  - destruct (_ <? _)%nat; [discriminate|].
    intros H. injection H as <-. right. reflexivity.
  - intros H. injection H as <-. right. reflexivity.
Qed.

Lemma fill_G_err (n : nat) (delta : vec) (range : list nat) (G : matrix)
  (e : exn) :
  fill_G n delta range G = inl e -> own_error e.
Proof.
  revert G. induction range as [|i rest IH]; intros G; simpl;
    [discriminate|]. intros H.
  bind_cases H; [exact (getitem_own _ _ _ H)|].
  bind_cases H; [exact (setitem2_err _ _ _ _ _ H)|].
  bind_cases H; [exact (getitem_own _ _ _ H)|].
  bind_cases H; [exact (setitem2_err _ _ _ _ _ H)|].
  exact (IH _ H).
Qed.

Lemma gradient_err (n : nat) (yu Amin : vec) (e : exn) :
  gradient n yu Amin = inl e -> own_error e.
Proof.
  unfold gradient. intros H.
  bind_cases H; [exact (setitem2_err _ _ _ _ _ H)|].
  bind_cases H; [exact (setitem2_err _ _ _ _ _ H)|].
  bind_cases H; [|exact (fill_G_err _ _ _ _ _ H)].
  unfold np_sub in H.
  repeat (destruct (_ =? _)%nat; [discriminate|]).
  injection H as <-. left. reflexivity.
Qed.

(** C9, as stated, fails: an observable with two values for the three
    samples of [mx0] is not rejected; [__reweight__] hands it to the
    estimator and returns the values computed from what the estimator
    answers. *)
Lemma reweight_accepts_short_observable :
  hstack y_short = inr [[5; 6]] /\
  obs_lengths_match mx0 [[5; 6]] = false /\
  (exists r, __reweight__ est0 mx0 unew0 y_short 0 = inr r) /\
  ~ (forall est, __reweight__ est mx0 unew0 y_short 0
                 = inl DimensionMismatchError).
Proof.
  split; [reflexivity|]. split; [reflexivity|]. split.
  - eexists. reflexivity.
  - intros H. specialize (H est0). discriminate H.
Qed.

(** C9, amended.  [__reweight__] has no check of the lengths of the
    observables and raises no [DimensionMismatchError] of its own: an
    error of a call is a [ValueError] or an [IndexError] of the array
    operations, or it is the error that the estimator raised when it was
    called on the stacked observables, whatever their lengths. *)
Theorem reweight_error_origin
  (est : matrix -> matrix -> int_array -> py results.t)
  (mx : mixture.t) (u y : list matrix) (ref : nat) (e : exn) :
  __reweight__ est mx u y ref = inl e ->
  (own_error e /\ e <> DimensionMismatchError) \/
  (exists u_ln A_n,
     u_ln_of mx u ref = inr u_ln /\ hstack y = inr A_n /\
     est A_n u_ln (smap_of (nrows A_n)) = inl e).
Proof.
  intros H.
  assert (Hown : own_error e -> own_error e /\ e <> DimensionMismatchError)
    by (intros Ho; split; [exact Ho | exact (own_error_not_dimension _ Ho)]).
  unfold __reweight__ in H.
  bind_cases H; [left; exact (Hown (u_ln_of_err _ _ _ _ H))|].
  bind_cases H; [left; exact (Hown (hstack_err _ _ H))|].
  bind_cases H; [right; exists a, a0; auto|].
  left. apply Hown.
  destruct (nrows a0 =? 0)%nat.
  - bind_cases H; [exact (getitem_own _ _ _ H)|].
    bind_cases H; [exact (getitem_own _ _ _ H)|].
    bind_cases H; [exact (getitem2_err _ _ _ _ H)|].
    bind_cases H; [exact (getitem2_err _ _ _ _ H)|].
    bind_cases H; [exact (getitem2_err _ _ _ _ H)|].
    discriminate.
  - bind_cases H; [exact (getitem_own _ _ _ H)|].
    bind_cases H; [exact (getitem_own _ _ _ H)|].
    bind_cases H; [exact (gradient_err _ _ _ _ H)|].
    bind_cases H; [|discriminate].
    unfold multi_dot3 in H. destruct (_ && _); [discriminate|].
    injection H as <-. left. reflexivity.
Qed.

Lemma reweight_error_origin_witness :
  (own_error DimensionMismatchError /\
   DimensionMismatchError <> DimensionMismatchError) \/
  (exists u_ln A_n,
     u_ln_of mx0 unew0 0 = inr u_ln /\ hstack y_one = inr A_n /\
     est_strict A_n u_ln (smap_of (nrows A_n)) = inl DimensionMismatchError).
Proof.
  apply (reweight_error_origin est_strict mx0 unew0 y_one 0
           DimensionMismatchError).
  reflexivity.
Defined.

(** ** The equations of the solver *)

Lemma logsumexp_shift (l : list xfloat) (c : R) :
  Exists is_fin l ->
  logsumexp (map (fun t => xplus t c) l) = logsumexp l + c.
Proof.
  intros H. apply Rsum_np_exp_pos in H. unfold logsumexp.
  rewrite map_map.
  rewrite (map_ext _ (fun t => np_exp t * exp c))
    by (intros t; apply np_exp_xplus).
  rewrite Rsum_scale, ln_mult by (assumption || apply exp_pos).
  rewrite ln_exp. reflexivity.
Qed.

Lemma xplus_xplus (a : xfloat) (x y : R) :
  xplus (xplus a x) y = xplus a (x + y).
Proof. destruct a; simpl; [f_equal; ring | reflexivity]. Qed.

Lemma ncols_mat_map {A B : Type} (g : A -> B) (M : list (list A)) :
  ncols (mat_map g M) = ncols M.
Proof.
  destruct M as [|row M]; [reflexivity|]. unfold ncols. simpl.
  apply length_map.
Qed.

Lemma map_combine_map_r {A B C D : Type} (g : A * C -> D) (h : B -> C)
  (a : list A) (b : list B) :
  map g (combine a (map h b)) =
  map (fun p => g (fst p, h (snd p))) (combine a b).
Proof.
  revert b. induction a as [|x a IH]; intros [|y b]; simpl; try reflexivity.
  f_equal. apply IH.
Qed.

Lemma map_combine_map_l {A B C D : Type} (g : C * B -> D) (h : A -> C)
  (a : list A) (b : list B) :
  map g (combine (map h a) b) =
  map (fun p => g (h (fst p), snd p)) (combine a b).
Proof.
  revert b. induction a as [|x a IH]; intros [|y b]; simpl; try reflexivity.
  f_equal. apply IH.
Qed.

(** The states that enter the normalizing sum of one sample. *)
Lemma denominator_terms_fin (U : matrix) (N : list nat) (fv : vec) (j : nat) :
  length N = length U -> length fv = length U -> (0 < nat_sum N)%nat ->
  Exists is_fin
    (map (fun p => xplus (np_log_count (fst (fst p)))
                         (snd (fst p) - nth j (snd p) 0))
         (combine (combine N fv) U)).
Proof.
  intros HN Hf Hpos. apply nat_sum_pos_Exists in Hpos.
  revert fv U HN Hf.
  induction Hpos as [k l Hk | k l _ IH]; intros [|x fv] [|row U] HN Hf;
    simpl in *; try lia.
  - left. unfold np_log_count.
    destruct (Nat.eqb_spec k 0); [contradiction | exact I].
  - right. apply IH; lia.
Qed.

(** Adding [c] to every potential subtracts [c] from every normalizing
    log-denominator. *)
Lemma log_denominator_shift (U : matrix) (N : list nat) (fv : vec)
  (K Ns : nat) (c : R) :
  is_matrix K Ns U -> length N = K -> length fv = K ->
  (0 < nat_sum N)%nat ->
  log_denominator (mat_map (fun x => x + c) U) N fv =
  map (fun x => x - c) (log_denominator U N fv).
Proof.
  intros [HK Hrows] HN Hf Hpos. unfold log_denominator.
  rewrite ncols_mat_map, map_map.
  apply map_ext_in. intros j Hj. apply in_seq in Hj.
  unfold mat_map. rewrite map_combine_map_r. cbn [fst snd].
  change (?a - c) with (a + - c).
  rewrite <- (logsumexp_shift _ (- c)) by (apply denominator_terms_fin; lia).
  f_equal. rewrite map_map.
  apply map_ext_in. intros [[k x] row] Hin. cbn [fst snd].
  rewrite xplus_xplus. f_equal.
  assert (Hrow : length row = Ns).
  { apply in_combine_r in Hin. rewrite Forall_forall in Hrows.
    apply Hrows, Hin. }
  assert (HNs : ncols U = Ns).
  { destruct U as [|r0 U]; [apply in_combine_r in Hin; destruct Hin|].
    inversion Hrows as [|? ? Hr0 _]. exact Hr0. }
  rewrite (nth_map_in (fun y => y + c) _ _ _ 0) by lia. ring.
Qed.

Lemma combine_shift_cancel (row cden : vec) (c : R) :
  map (fun p => Fin (- fst p - snd p))
      (combine (map (fun x => x + c) row) (map (fun x => x - c) cden)) =
  map (fun p => Fin (- fst p - snd p)) (combine row cden).
Proof.
  revert cden. induction row as [|x row IH]; intros [|y cden]; simpl;
    try reflexivity.
  f_equal; [f_equal; ring | apply IH].
Qed.

(** The right-hand side of the fixed-point system does not see a common
    shift of the potentials. *)
Lemma fixed_point_rhs_shift (U : matrix) (N : list nat) (fv : vec)
  (K Ns : nat) (c : R) :
  is_matrix K Ns U -> length N = K -> length fv = K ->
  (0 < nat_sum N)%nat ->
  fixed_point_rhs (mat_map (fun x => x + c) U) N fv = fixed_point_rhs U N fv.
Proof.
  intros HU HN Hf Hpos. unfold fixed_point_rhs.
  rewrite (log_denominator_shift U N fv K Ns c) by assumption.
  unfold mat_map. rewrite map_map. apply map_ext. intros row.
  rewrite combine_shift_cancel. reflexivity.
Qed.

Lemma length_fixed_point_rhs (U : matrix) (N : list nat) (fv : vec) :
  length (fixed_point_rhs U N fv) = length U.
Proof. unfold fixed_point_rhs. apply length_map. Qed.

(** Nor do the weights. *)
Lemma log_weights_shift (U : matrix) (N : list nat) (fv : vec)
  (K Ns : nat) (c : R) :
  is_matrix K Ns U -> length N = K -> length fv = K ->
  (0 < nat_sum N)%nat ->
  log_weights (mat_map (fun x => x + c) U) N fv = log_weights U N fv.
Proof.
  intros HU HN Hf Hpos. unfold log_weights.
  rewrite (log_denominator_shift U N fv K Ns c) by assumption.
  rewrite ncols_mat_map. destruct HU as [HK Hrows].
  rewrite map_combine_map_r. apply map_ext_in.
  intros [j x] Hin. cbn [fst snd].
  apply in_combine_l, in_seq in Hin.
  unfold mat_map. rewrite map_combine_map_r.
  apply map_ext_in. intros [y row] Hin'. cbn [fst snd].
  assert (Hrow : length row = Ns).
  { apply in_combine_r in Hin'. rewrite Forall_forall in Hrows.
    apply Hrows, Hin'. }
  assert (HNs : ncols U = Ns).
  { destruct U as [|r0 U]; [apply in_combine_r in Hin'; destruct Hin'|].
    inversion Hrows as [|? ? Hr0 _]. exact Hr0. }
  rewrite (nth_map_in (fun z => z + c) _ _ _ 0) by lia. ring.
Qed.

Lemma self_consistent_iteration_shift (test : change) (U : matrix)
  (N : list nat) (tol : R) (steps : nat) (fv : vec) (K Ns : nat) (c : R) :
  is_matrix K Ns U -> length N = K -> length fv = K ->
  (0 < nat_sum N)%nat ->
  self_consistent_iteration test (mat_map (fun x => x + c) U) N tol steps fv =
  self_consistent_iteration test U N tol steps fv.
Proof.
  intros HU HN Hf Hpos. revert fv Hf.
  induction steps as [|steps IH]; intros fv Hf; simpl; [reflexivity|].
  rewrite (fixed_point_rhs_shift U N fv K Ns c) by assumption.
  destruct (Rltb _ _); [reflexivity|].
  apply IH. rewrite length_fixed_point_rhs. apply HU.
Qed.

Lemma self_consistent_iteration_length (test : change) (U : matrix)
  (N : list nat) (tol : R) (steps : nat) (fv fv' : vec) :
  self_consistent_iteration test U N tol steps fv = inr fv' ->
  length fv' = length U.
Proof.
  revert fv. induction steps as [|steps IH]; intros fv; simpl;
    [discriminate|].
  destruct (Rltb _ _).
  - intros H. injection H as <-. apply length_fixed_point_rhs.
  - apply IH.
Qed.

(** The whole solve does not see a common shift of the potentials. *)
Lemma spec_MBAR_shift (test : change) (iters : nat) (U : matrix)
  (N : list nat) (tol : R) (fv : vec) (K Ns : nat) (c : R) :
  is_matrix K Ns U -> length N = K -> length fv = K ->
  (0 < nat_sum N)%nat ->
  spec_MBAR test iters (mat_map (fun x => x + c) U) N tol fv =
  spec_MBAR test iters U N tol fv.
Proof.
  intros HU HN Hf Hpos. unfold spec_MBAR.
  rewrite (self_consistent_iteration_shift test U N tol iters fv K Ns c)
    by assumption.
  destruct (self_consistent_iteration test U N tol iters fv)
    as [e|fv'] eqn:E;
    [reflexivity|].
  simpl. apply self_consistent_iteration_length in E.
  rewrite (log_weights_shift U N fv' K Ns c); try assumption; try reflexivity.
  rewrite E. apply HU.
Qed.

(** ** Stacking the blocks of a mixture *)

Lemma length_hstack_row (blocks : list matrix) (ns : list nat) (K r : nat) :
  length blocks = length ns ->
  (forall i, (i < length blocks)%nat ->
     is_matrix K (nth i ns 0%nat) (nth i blocks [])) ->
  (r < K)%nat ->
  length (concat (map (fun b => nth r b []) blocks)) = nat_sum ns.
Proof.
  revert ns. induction blocks as [|b bs IH]; intros [|n0 ns] Hlen H Hr;
    simpl in *; try lia.
  rewrite length_app. f_equal.
  - destruct (H 0%nat ltac:(lia)) as [Hb Hrows]. simpl in Hb, Hrows.
    rewrite Forall_forall in Hrows. apply Hrows, nth_In. lia.
  - apply IH; [lia | | exact Hr].
    intros i Hi. apply (H (S i)). lia.
Qed.

Lemma hstack_shape (blocks : list matrix) (ns : list nat) (K : nat) :
  length blocks = length ns -> blocks <> [] ->
  (forall i, (i < length blocks)%nat ->
     is_matrix K (nth i ns 0%nat) (nth i blocks [])) ->
  hstack blocks = inr (hstack_rows blocks) /\
  is_matrix K (nat_sum ns) (hstack_rows blocks).
Proof.
  intros Hlen Hne H.
  assert (Hrows : forall b, In b blocks -> nrows b = K).
  { intros b Hin. destruct (In_nth _ _ [] Hin) as (i & Hi & <-).
    apply (H i Hi). }
  destruct blocks as [|b bs]; [congruence|]. split.
  - unfold hstack.
    replace (forallb (fun b' => (nrows b' =? nrows b)%nat) bs) with true;
      [reflexivity|].
    symmetry. apply forallb_forall. intros b' Hin. apply Nat.eqb_eq.
    rewrite (Hrows b') by (right; exact Hin).
    rewrite (Hrows b) by (left; reflexivity). reflexivity.
  - unfold hstack_rows. cbn [hd].
    rewrite (Hrows b) by (left; reflexivity).
    split; [rewrite length_map, length_seq; reflexivity|].
    apply Forall_forall. intros row Hin. apply in_map_iff in Hin.
    destruct Hin as (r & <- & Hr). apply in_seq in Hr.
    apply (length_hstack_row (b :: bs) ns K r); [exact Hlen | exact H | lia].
Qed.

Lemma hstack_wf (mx : mixture.t) :
  mixture_wf mx ->
  hstack (mixture.u mx) = inr (hstack_rows (mixture.u mx)) /\
  is_matrix (mixture.m mx) (nat_sum (mixture.n mx))
            (hstack_rows (mixture.u mx)).
Proof.
  intros (Hn & Hu & _ & Hblocks & Hpos).
  apply hstack_shape.
  - lia.
  - intros E. rewrite E in Hu. simpl in Hu.
    destruct (mixture.n mx); simpl in *; lia.
  - intros i Hi. apply Hblocks. lia.
Qed.

Lemma hstack_rows_mat_map (h : R -> R) (blocks : list matrix) :
  hstack_rows (map (mat_map h) blocks) = mat_map h (hstack_rows blocks).
Proof.
  assert (E : nrows (hd [] (map (mat_map h) blocks)) = nrows (hd [] blocks))
    by (destruct blocks; simpl; unfold nrows, mat_map; rewrite ?length_map;
        reflexivity).
  unfold hstack_rows. rewrite E. unfold mat_map.
  rewrite map_map. apply map_ext. intros r.
  rewrite concat_map, !map_map. f_equal. apply map_ext. intros b.
  change [] with (map h []) at 1. apply map_nth.
Qed.

Lemma hstack_mat_map (h : R -> R) (blocks : list matrix) (U : matrix) :
  hstack blocks = inr U ->
  hstack (map (mat_map h) blocks) = inr (mat_map h U).
Proof.
  unfold hstack. destruct blocks as [|b bs]; [discriminate|].
  cbn [map].
  replace (forallb (fun b' => (nrows b' =? nrows (mat_map h b))%nat)
             (map (mat_map h) bs))
    with (forallb (fun b' => (nrows b' =? nrows b)%nat) bs).
  - destruct (forallb (fun b' => (nrows b' =? nrows b)%nat) bs);
      [|discriminate].
    intros E. injection E as <-.
    rewrite <- hstack_rows_mat_map. reflexivity.
  - induction bs as [|b' bs IH]; simpl; [reflexivity|].
    rewrite IH. unfold nrows, mat_map. rewrite !length_map. reflexivity.
Qed.

(** C7.  Gauge invariance of the solve: for a well-shaped mixture, any
    constant [c] and either stopping test, [__initialize__] on the
    potentials shifted by [c] fails exactly when it fails on the original
    ones, and otherwise stores the same free-energy differences
    f_j - f_k and the same covariance matrix Theta. *)
Theorem gauge_invariance
  (cov : matrix -> list nat -> matrix) (test : change) (iters : nat)
  (tol c : R) (mx : mixture.t) :
  mixture_wf mx ->
  match __initialize__ (spec_MBAR test iters) cov tol mx,
        __initialize__ (spec_MBAR test iters) cov tol
                       (shift_potentials c mx) with
  | inr (mx1, _), inr (mx2, _) =>
      (forall j k,
         nth j (mixture.f mx2) 0 - nth k (mixture.f mx2) 0 =
         nth j (mixture.f mx1) 0 - nth k (mixture.f mx1) 0) /\
      mixture.Theta mx2 = mixture.Theta mx1
  | inl e1, inl e2 => e1 = e2
  | _, _ => False
  end.
Proof.
  intros Hwf. destruct (hstack_wf mx Hwf) as [HU HUshape].
  destruct Hwf as (Hn & Hu & Hf & Hblocks & Hpos).
  unfold __initialize__.
  cbn [shift_potentials mixture.u mixture.n mixture.f mixture.m].
  rewrite (hstack_mat_map _ _ _ HU), HU. cbn [bind].
  rewrite (spec_MBAR_shift test iters _ _ tol _ (mixture.m mx)
             (nat_sum (mixture.n mx)) c) by assumption.
  destruct (spec_MBAR test iters (hstack_rows (mixture.u mx)) (mixture.n mx) tol
              (mixture.f mx)) as [e|mb]; cbn [bind]; [reflexivity|].
  set (flnpi := flnpi_of (f_k mb) (mixture.n mx)).
  rewrite (map_py_ok _ (fun i => P_of flnpi (nth i (mixture.u mx) [])
                                   (u0_of flnpi (nth i (mixture.u mx) [])))).
  - rewrite (map_py_ok _
               (fun i =>
                  P_of flnpi
                    (nth i (map (mat_map (fun x => x + c)) (mixture.u mx)) [])
                    (u0_of flnpi
                       (nth i (map (mat_map (fun x => x + c)) (mixture.u mx))
                            [])))).
    + cbn [bind ret mixture.f mixture.Theta]. split; reflexivity.
    + intros i Hi. apply in_seq in Hi. cbv beta.
      rewrite (@getitem_ok matrix _ i [])
        by (rewrite length_map; unfold matrix in *; lia).
      unfold bind at 1.
      rewrite (getitem_ok _ i (u0_of flnpi []))
        by (rewrite !length_map; unfold matrix in *; lia).
      rewrite map_nth. reflexivity.
  - intros i Hi. apply in_seq in Hi. cbv beta.
    rewrite (getitem_ok (mixture.u mx) i []) by lia.
    unfold bind at 1.
    rewrite (getitem_ok _ i (u0_of flnpi [])) by (rewrite length_map; lia).
    rewrite map_nth. reflexivity.
Qed.

Lemma gauge_invariance_witness :
  match __initialize__ (spec_MBAR Absolute 1) cov0 1 mx0,
        __initialize__ (spec_MBAR Absolute 1) cov0 1
                       (shift_potentials 5 mx0) with
  | inr (mx1, _), inr (mx2, _) =>
      (forall j k,
         nth j (mixture.f mx2) 0 - nth k (mixture.f mx2) 0 =
         nth j (mixture.f mx1) 0 - nth k (mixture.f mx1) 0) /\
      mixture.Theta mx2 = mixture.Theta mx1
  | inl e1, inl e2 => e1 = e2
  | _, _ => False
  end.
Proof.
  exact (gauge_invariance cov0 Absolute 1 1 5 mx0 mx0_wf).
Defined.

(** ** The solve of the small mixture *)





(** With the relative stopping test the free energies [1, 1], another
    gauge of the same solution, are returned after one step. *)
Lemma log_denominator_U0_gauge :
  log_denominator U0 [1%nat; 2%nat] [1; 1] = [ln 3 + 1; ln 3 + 1; ln 3 + 1].
Proof.
  unfold log_denominator, U0, logsumexp, np_log_count. simpl.
  assert (E : exp (ln 1 + (1 - 0)) + (exp (ln (1 + 1) + (1 - 0)) + 0)
              = 3 * exp 1).
  { rewrite !exp_plus, !exp_ln by lra.
    replace (1 - 0) with 1 by ring. ring. }
  rewrite E, ln_mult, ln_exp by (lra || apply exp_pos). reflexivity.
Qed.

Lemma fixed_point_rhs_U0_gauge :
  fixed_point_rhs U0 [1%nat; 2%nat] [1; 1] = [1; 1].
Proof.
  unfold fixed_point_rhs. rewrite log_denominator_U0_gauge.
  unfold U0, logsumexp. simpl.
  assert (E : exp (- 0 - (ln 3 + 1))
              + (exp (- 0 - (ln 3 + 1)) + (exp (- 0 - (ln 3 + 1)) + 0))
              = exp (- 1)).
  { replace (- 0 - (ln 3 + 1)) with (- ln 3 + - 1) by ring.
    rewrite exp_plus, exp_Ropp, exp_ln by lra. field. }
  rewrite E, ln_exp. repeat f_equal; lra.
Qed.

Lemma self_consistent_iteration_relative_U0 (tol : R) :
  0 < tol ->
  self_consistent_iteration Relative U0 [1%nat; 2%nat] tol 1 [1; 1]
  = inr [1; 1].
Proof.
  intros Htol. cbn [self_consistent_iteration].
  rewrite fixed_point_rhs_U0_gauge.
  assert (E : max_abs_change [1; 1] [1; 1] = 0).
  { unfold max_abs_change. simpl. replace (1 - 1) with 0 by ring.
    rewrite Rabs_R0. repeat rewrite (Rmax_left 0 0) by lra. reflexivity. }
  assert (S : scale Relative [1; 1] = 1).
  { unfold scale, max_abs. simpl. rewrite Rabs_R1.
    rewrite (Rmax_left 1 0) by lra. rewrite (Rmax_left 1 1) by lra.
    reflexivity. }
  rewrite E, S, Rmult_1_r. unfold Rltb.
  destruct (Rlt_dec 0 tol); [reflexivity | contradiction].
Qed.

(** ** The residual of the fixed-point equations *)











(** *** The maximum absolute change *)








(** *** A solve stopped by the relative test

    Two states with one sample each, the reduced potentials
    U = [[0, 0], [1000, 1000 + ln 2]] and the initial free energies
    [0, 1000].  One step of the iteration changes the free energies by
    ln(6/5) at most, which is below 0.001 times the largest free energy:
    the relative test stops the solve.  The residual of the equation of
    state 0 at the returned free energies is ln(205/204), about 0.0049. *)
















Lemma theta_overlap_symmetry_witness :
  exists mx' P,
    __initialize__ solve0 (spec_covariance cov_skew) 1 mx0 = inr (mx', P) /\
    mixture.Theta mx' =
      spec_covariance cov_skew (mat_map exp (Log_W_nk mb0)) (N_k mb0) /\
    is_symmetric (mixture.Theta mx') /\
    (forall i j, (i < 2)%nat -> (j < 2)%nat ->
       entry (mixture.Theta mx') i j =
       (entry (cov_skew (mat_map exp (Log_W_nk mb0)) (N_k mb0)) i j
        + entry (cov_skew (mat_map exp (Log_W_nk mb0)) (N_k mb0)) j i) / 2) /\
    (forall i j, (i < 2)%nat -> (j < 2)%nat ->
       INR (nth i (N_k mb0) 0%nat) * entry (mixture.Overlap mx') i j =
       INR (nth j (N_k mb0) 0%nat) * entry (mixture.Overlap mx') j i) /\
    (forall i j, (i < 2)%nat -> (j < 2)%nat ->
       nth i (N_k mb0) 0%nat = nth j (N_k mb0) 0%nat ->
       entry (mixture.Overlap mx') i j = entry (mixture.Overlap mx') j i).
Proof.
  eexists _, _. split; [reflexivity|].
  apply (theta_overlap_symmetry solve0 cov_skew 1 mx0 _ _ U0 mb0 3 2
           eq_refl eq_refl eq_refl eq_refl).
  - split; [reflexivity | repeat constructor].
  - lia.
  - reflexivity.
Defined.

(** ** The entries of [self.P]

    The matrix that lines 48-50 build is the weight of the specification
    scaled by the sample count of the state:
    P[k][j] = N_k * exp(f_k - u[k][j] - c_j), with
    c_j = logsumexp_l(log N_l + f_l - u[l][j]). *)

Lemma np_exp_log_count (k : nat) : np_exp (np_log_count k) = INR k.
Proof.
  unfold np_log_count. destruct (Nat.eqb_spec k 0) as [->|Hk]; simpl.
  - reflexivity.
  - apply exp_ln. apply lt_0_INR. lia.
Qed.

Lemma np_exp_log_ratio (k Ntot : nat) :
  (0 < Ntot)%nat -> np_exp (np_log_ratio k Ntot) = INR k / INR Ntot.
Proof.
  intros HN. apply lt_0_INR in HN. unfold np_log_ratio.
  destruct (Nat.eqb_spec k 0) as [->|Hk]; simpl.
  - unfold Rdiv. rewrite Rmult_0_l. reflexivity.
  - apply exp_ln. apply Rdiv_lt_0_compat; [apply lt_0_INR; lia | exact HN].
Qed.

Lemma flnpi_sum (fv : vec) (nv : list nat) (ui : matrix) (Ntot j : nat) :
  (0 < Ntot)%nat ->
  Rsum (map np_exp
          (map (fun p => xplus (fst p) (- nth j (snd p) 0))
               (combine
                  (map (fun p => xplus (np_log_ratio (snd p) Ntot) (fst p))
                       (combine fv nv))
                  ui))) * INR Ntot =
  Rsum (map np_exp
          (map (fun p => xplus (np_log_count (fst (fst p)))
                               (snd (fst p) - nth j (snd p) 0))
               (combine (combine nv fv) ui))).
Proof.
  intros HN. revert nv ui.
  induction fv as [|x fv IH]; intros [|k nv] [|row ui]; simpl; try lra.
  rewrite <- IH. rewrite !np_exp_xplus, np_exp_log_ratio, np_exp_log_count
    by exact HN.
  apply lt_0_INR in HN.
  replace (x - nth j row 0) with (x + - nth j row 0) by ring.
  rewrite exp_plus. field. lra.
Qed.

Lemma P_of_entry (fv : vec) (nv : list nat) (ui : matrix) (K c k j : nat) :
  length fv = K -> length nv = K -> is_matrix K c ui ->
  (0 < nat_sum nv)%nat -> (k < K)%nat -> (j < c)%nat ->
  entry (P_of (flnpi_of fv nv) ui (u0_of (flnpi_of fv nv) ui)) k j =
  INR (nth k nv 0%nat) *
  exp (nth k fv 0 - entry ui k j
       - logsumexp
           (map (fun p => xplus (np_log_count (fst (fst p)))
                                (snd (fst p) - nth j (snd p) 0))
                (combine (combine nv fv) ui))).
Proof.
  intros Hf Hn [Hrows Hcols] Hpos Hk Hj.
  set (flnpi := flnpi_of fv nv).
  assert (Hlen : length flnpi = K)
    by (unfold flnpi; rewrite length_flnpi_of; lia).
  assert (Hfin : Exists is_fin flnpi)
    by (apply flnpi_has_fin; [lia | exact Hpos]).
  assert (Hne : flnpi <> []) by (intros E; rewrite E in Hfin; inversion Hfin).
  assert (Hc : ncols (col_minus flnpi ui) = c).
  { rewrite ncols_col_minus by exact Hne.
    apply (ncols_is_matrix K); [split; assumption | lia]. }
  assert (Hrow : length (nth k ui []) = c).
  { rewrite Forall_forall in Hcols. apply Hcols, nth_In. lia. }
  (* the entry of P *)
  unfold P_of, entry, mat_map, plus_row.
  rewrite (nth_map_in (map np_exp) _ _ _ [])
    by (unfold col_minus; rewrite !length_map, length_combine; lia).
  rewrite (nth_map_in (fun row => map _ (combine row _)) _ _ _ [])
    by (unfold col_minus; rewrite length_map, length_combine; lia).
  unfold col_minus at 1.
  rewrite (nth_map_combine _ _ _ _ _ NegInf []) by lia. cbn [fst snd].
  assert (Hu0 : length (u0_of flnpi ui) = c).
  { unfold u0_of, logsumexp_axis0. rewrite !length_map, length_seq.
    exact Hc. }
  rewrite (nth_map_in np_exp _ _ _ NegInf)
    by (rewrite length_map, length_combine, length_map; lia).
  rewrite (nth_map_combine _ _ _ _ _ NegInf 0) by (rewrite ?length_map; lia).
  cbn [fst snd].
  rewrite (nth_map_in (fun x => xplus (nth k flnpi NegInf) (- x)) _ _ _ 0)
    by lia.
  (* the normalizer *)
  unfold u0_of, logsumexp_axis0. rewrite Hc.
  rewrite (nth_map_in Ropp _ _ _ 0)
    by (rewrite length_map, length_seq; exact Hj).
  rewrite (nth_map_in _ _ _ _ 0%nat) by (rewrite length_seq; exact Hj).
  rewrite seq_nth by exact Hj. cbn [Nat.add].
  rewrite (xcolumn_col_minus _ _ c) by assumption.
  rewrite !np_exp_xplus.
  unfold flnpi at 1, flnpi_of.
  rewrite (nth_map_combine _ _ _ _ _ 0 0%nat) by lia. cbn [fst snd].
  rewrite np_exp_xplus, np_exp_log_ratio by exact Hpos.
  pose proof (flnpi_sum fv nv ui (nat_sum nv) j Hpos) as Hsum.
  fold (flnpi_of fv nv) in Hsum. fold flnpi in Hsum.
  pose proof (Rsum_np_exp_pos _
                (denominator_terms_fin ui nv fv j ltac:(lia) ltac:(lia) Hpos))
    as Hpos2.
  set (S2 := Rsum (map np_exp
                     (map (fun p => xplus (np_log_count (fst (fst p)))
                                          (snd (fst p) - nth j (snd p) 0))
                          (combine (combine nv fv) ui)))) in *.
  set (S1 := Rsum (map np_exp
                     (map (fun p => xplus (fst p) (- nth j (snd p) 0))
                          (combine flnpi ui)))) in *.
  assert (HNtot : 0 < INR (nat_sum nv)) by (apply lt_0_INR; exact Hpos).
  assert (HS1 : 0 < S1).
  { assert (S1 = S2 / INR (nat_sum nv)) as ->
      by (rewrite <- Hsum; field; lra).
    apply Rdiv_lt_0_compat; assumption. }
  unfold logsumexp. fold S1. fold S2.
  unfold Rminus. rewrite !exp_plus, !exp_Ropp, !exp_ln by assumption.
  rewrite <- Hsum. fold (entry ui k j). field.
  pose proof (exp_pos (entry ui k j)). repeat split; lra.
Qed.

Lemma u0_of_entry (fv : vec) (nv : list nat) (ui : matrix) (K c j : nat) :
  length fv = K -> length nv = K -> is_matrix K c ui ->
  (0 < nat_sum nv)%nat -> (j < c)%nat ->
  nth j (u0_of (flnpi_of fv nv) ui) 0 =
  ln (INR (nat_sum nv))
  - logsumexp
      (map (fun p => xplus (np_log_count (fst (fst p)))
                           (snd (fst p) - nth j (snd p) 0))
           (combine (combine nv fv) ui)).
Proof.
  intros Hf Hn [Hrows Hcols] Hpos Hj.
  set (flnpi := flnpi_of fv nv).
  assert (Hlen : length flnpi = K)
    by (unfold flnpi; rewrite length_flnpi_of; lia).
  assert (Hfin : Exists is_fin flnpi)
    by (apply flnpi_has_fin; [lia | exact Hpos]).
  assert (Hne : flnpi <> []) by (intros E; rewrite E in Hfin; inversion Hfin).
  assert (Hc : ncols (col_minus flnpi ui) = c).
  { rewrite ncols_col_minus by exact Hne.
    apply (ncols_is_matrix K); [split; assumption|].
    destruct flnpi; [congruence | simpl in Hlen; lia]. }
  unfold u0_of, logsumexp_axis0. rewrite Hc.
  rewrite (nth_map_in Ropp _ _ _ 0)
    by (rewrite length_map, length_seq; exact Hj).
  rewrite (nth_map_in _ _ _ _ 0%nat) by (rewrite length_seq; exact Hj).
  rewrite seq_nth by exact Hj. cbn [Nat.add].
  rewrite (xcolumn_col_minus _ _ c) by assumption.
  pose proof (flnpi_sum fv nv ui (nat_sum nv) j Hpos) as Hsum.
  fold (flnpi_of fv nv) in Hsum. fold flnpi in Hsum.
  pose proof (Rsum_np_exp_pos _
                (denominator_terms_fin ui nv fv j ltac:(lia) ltac:(lia) Hpos))
    as Hpos2.
  assert (HN : 0 < INR (nat_sum nv)) by (apply lt_0_INR; exact Hpos).
  unfold logsumexp. rewrite <- Hsum in *.
  set (S1 := Rsum (map np_exp
                     (map (fun p => xplus (fst p) (- nth j (snd p) 0))
                          (combine flnpi ui)))) in *.
  assert (HS1 : 0 < S1).
  { destruct (Rlt_le_dec 0 S1) as [H|H]; [exact H|].
    exfalso. assert (S1 * INR (nat_sum nv) <= 0); [|lra].
    rewrite <- (Rmult_0_l (INR (nat_sum nv))).
    apply Rmult_le_compat_r; lra. }
  rewrite ln_mult by assumption. ring.
Qed.

(** *** [self.P] and the weights of the specification *)









(** * Further properties of the code *)

(** ** Errors and shapes of [__initialize__] *)

(** X1.  A mixture without blocks, or whose blocks disagree in their
    number of rows, makes [__initialize__] raise [ValueError] (in
    [np.hstack], before the solver is called), whatever the solver. *)
Theorem initialize_blocks_not_stackable
  (MBAR_solve : matrix -> list nat -> R -> vec -> py mbar_MBAR)
  (cov : matrix -> list nat -> matrix)
  (tol : R) (mx : mixture.t) :
  (mixture.u mx = [] \/
   exists b bs b',
     mixture.u mx = b :: bs /\ In b' bs /\ nrows b' <> nrows b) ->
  __initialize__ MBAR_solve cov tol mx = inl ValueError.
Proof.
  intros Hu. unfold __initialize__.
  destruct Hu as [-> | (b & bs & b' & -> & Hin & Hne)].
  - reflexivity.
  - rewrite (hstack_ragged b b' bs Hin Hne). reflexivity.
Qed.

Lemma initialize_blocks_not_stackable_witness :
  __initialize__ solve0 cov0 1 mx_ragged = inl ValueError.
Proof.
  apply (initialize_blocks_not_stackable solve0 cov0 1 mx_ragged).
  right. exists [[0]; [0]], [[[0; 0]]], [[0; 0]].
  split; [reflexivity|]. split; [left; reflexivity | simpl; lia].
Defined.

Lemma P_of_shape (flnpi : list xfloat) (ui : matrix) (c : nat) :
  flnpi <> [] -> is_matrix (length flnpi) c ui ->
  is_matrix (length flnpi) c (P_of flnpi ui (u0_of flnpi ui)) /\
  length (u0_of flnpi ui) = c.
Proof.
  intros Hne [Hrows Hcols].
  assert (Hc : ncols (col_minus flnpi ui) = c).
  { rewrite ncols_col_minus by exact Hne.
    apply (ncols_is_matrix (length flnpi)); [split; assumption|].
    destruct flnpi; [congruence | simpl; lia]. }
  assert (Hu0 : length (u0_of flnpi ui) = c).
  { unfold u0_of, logsumexp_axis0. rewrite !length_map, length_seq.
    exact Hc. }
  split; [|exact Hu0]. unfold P_of, mat_map, plus_row. split.
  - unfold col_minus. rewrite !length_map, length_combine. lia.
  - rewrite map_map. apply Forall_forall. intros row Hin.
    apply in_map_iff in Hin. destruct Hin as (xrow & <- & Hx).
    rewrite length_map, length_map, length_combine, Hu0.
    pose proof (col_minus_rows flnpi ui c Hcols) as HF.
    rewrite Forall_forall in HF. rewrite (HF xrow Hx). lia.
Qed.

(** X2.  When [__initialize__] returns for a well-shaped mixture (and
    the solver has returned one free energy per state), it leaves [m],
    [n] and [u] of the mixture as they were, [self.P] and [mixture.u0]
    have one entry per state, [self.P[i]] has the shape [(m, n[i])] of
    [mixture.u[i]] and [mixture.u0[i]] has one value per sample of block
    [i]. *)
Theorem initialize_shapes
  (MBAR_solve : matrix -> list nat -> R -> vec -> py mbar_MBAR)
  (cov : matrix -> list nat -> matrix)
  (tol : R) (mx mx' : mixture.t) (P : list matrix) :
  mixture_wf mx ->
  __initialize__ MBAR_solve cov tol mx = inr (mx', P) ->
  length (mixture.f mx') = mixture.m mx ->
  mixture.m mx' = mixture.m mx /\ mixture.n mx' = mixture.n mx /\
  mixture.u mx' = mixture.u mx /\
  length P = mixture.m mx /\ length (mixture.u0 mx') = mixture.m mx /\
  forall i, (i < mixture.m mx)%nat ->
    is_matrix (mixture.m mx) (nth i (mixture.n mx) 0%nat) (nth i P []) /\
    length (nth i (mixture.u0 mx') []) = nth i (mixture.n mx) 0%nat.
Proof.
  intros (Hn & Hu & _ & Hblocks & Hpos) Hinit Hf.
  destruct (initialize_inv _ _ _ _ _ _ Hu Hinit)
    as (U & mb & _ & _ & -> & ->).
  cbn [mixture.m mixture.n mixture.u mixture.f mixture.u0] in *.
  set (flnpi := flnpi_of (f_k mb) (mixture.n mx)).
  assert (Hlen : length flnpi = mixture.m mx)
    by (unfold flnpi; rewrite length_flnpi_of; lia).
  assert (Hm : (0 < mixture.m mx)%nat).
  { destruct (mixture.n mx); simpl in *; lia. }
  assert (Hne : flnpi <> [])
    by (intros E; rewrite E in Hlen; simpl in Hlen; lia).
  repeat (split; [reflexivity|]).
  split; [rewrite length_map, length_seq; reflexivity|].
  split; [rewrite length_map; exact Hu|].
  intros i Hi. pose proof (Hblocks i Hi) as Hshape.
  rewrite <- Hlen in Hshape at 1.
  destruct (P_of_shape flnpi _ _ Hne Hshape) as [HP Hu0].
  rewrite Hlen in HP.
  rewrite (nth_map_in _ _ _ _ 0%nat) by (rewrite length_seq; exact Hi).
  rewrite seq_nth by exact Hi. cbn [Nat.add]. cbv zeta. fold flnpi.
  split; [exact HP|].
  rewrite (nth_map_in (u0_of flnpi) _ _ _ []) by lia. exact Hu0.
Qed.

Lemma initialize_shapes_witness :
  exists mx' P,
    __initialize__ solve0 cov0 1 mx0 = inr (mx', P) /\
    mixture.m mx' = mixture.m mx0 /\ mixture.n mx' = mixture.n mx0 /\
    mixture.u mx' = mixture.u mx0 /\
    length P = mixture.m mx0 /\ length (mixture.u0 mx') = mixture.m mx0 /\
    forall i, (i < mixture.m mx0)%nat ->
      is_matrix (mixture.m mx0) (nth i (mixture.n mx0) 0%nat) (nth i P []) /\
      length (nth i (mixture.u0 mx') []) = nth i (mixture.n mx0) 0%nat.
Proof.
  eexists _, _. split; [reflexivity|].
  apply (initialize_shapes solve0 cov0 1 mx0 _ _ mx0_wf eq_refl).
  reflexivity.
Defined.

(** ** The probabilities [self.P] *)

(** X3.  After [__initialize__] of a well-shaped mixture, the entry of
    [self.P[i]] for state [k] and sample [j] of block [i] is
    N_k * exp(f_k - u[k][j] - c_j), where
    c_j = logsumexp_l(log N_l + f_l - u[l][j]); a state without samples
    has the entry 0. *)
Theorem P_entries
  (MBAR_solve : matrix -> list nat -> R -> vec -> py mbar_MBAR)
  (cov : matrix -> list nat -> matrix)
  (tol : R) (mx mx' : mixture.t) (P : list matrix) (i k j : nat) :
  mixture_wf mx ->
  __initialize__ MBAR_solve cov tol mx = inr (mx', P) ->
  length (mixture.f mx') = mixture.m mx ->
  (i < mixture.m mx)%nat -> (k < mixture.m mx)%nat ->
  (j < nth i (mixture.n mx) 0)%nat ->
  entry (nth i P []) k j =
    INR (nth k (mixture.n mx) 0%nat) *
    exp (nth k (mixture.f mx') 0 - entry (nth i (mixture.u mx) []) k j
         - logsumexp
             (map (fun p => xplus (np_log_count (fst (fst p)))
                                  (snd (fst p) - nth j (snd p) 0))
                  (combine (combine (mixture.n mx) (mixture.f mx'))
                           (nth i (mixture.u mx) [])))) /\
  (nth k (mixture.n mx) 0%nat = 0%nat -> entry (nth i P []) k j = 0).
Proof.
  intros (Hn & Hu & _ & Hblocks & Hpos) Hinit Hf Hi Hk Hj.
  destruct (initialize_inv _ _ _ _ _ _ Hu Hinit)
    as (U & mb & _ & _ & -> & ->).
  cbn [mixture.f] in *.
  rewrite (nth_map_in _ _ _ _ 0%nat) by (rewrite length_seq; exact Hi).
  rewrite seq_nth by exact Hi. cbn [Nat.add]. cbv zeta.
  pose proof (P_of_entry (f_k mb) (mixture.n mx) (nth i (mixture.u mx) [])
                (mixture.m mx) (nth i (mixture.n mx) 0%nat) k j
                Hf Hn (Hblocks i Hi) Hpos Hk Hj) as E.
  split; [exact E|].
  intros H0. rewrite E, H0. simpl. ring.
Qed.

Lemma P_entries_witness :
  exists mx' P,
    __initialize__ solve0 cov0 1 mx0 = inr (mx', P) /\
    (entry (nth 1 P []) 1 0 =
       INR (nth 1 (mixture.n mx0) 0%nat) *
       exp (nth 1 (mixture.f mx') 0 - entry (nth 1 (mixture.u mx0) []) 1 0
            - logsumexp
                (map (fun p => xplus (np_log_count (fst (fst p)))
                                     (snd (fst p) - nth 0 (snd p) 0))
                     (combine (combine (mixture.n mx0) (mixture.f mx'))
                              (nth 1 (mixture.u mx0) [])))) /\
     (nth 1 (mixture.n mx0) 0%nat = 0%nat -> entry (nth 1 P []) 1 0 = 0)).
Proof.
  eexists _, _. split; [reflexivity|].
  apply (P_entries solve0 cov0 1 mx0 _ _ 1 1 0 mx0_wf eq_refl);
    simpl; solve [reflexivity | lia].
Defined.

Lemma nth_le_Rsum (l : vec) (k : nat) :
  Forall (fun x => 0 <= x) l -> nth k l 0 <= Rsum l.
Proof.
  intros H. revert k. induction H as [|x l Hx Hl IH]; intros k; simpl.
  - destruct k; lra.
  - assert (0 <= Rsum l).
    { clear IH. induction Hl as [|y l Hy _ IH]; simpl; lra. }
    destruct k as [|k]; [lra|]. specialize (IH k). lra.
Qed.

Lemma entry_column (M : matrix) (k j : nat) :
  (k < length M)%nat -> entry M k j = nth k (column j M) 0.
Proof.
  intros Hk. unfold entry, column.
  rewrite (nth_map_in (fun row => nth j row 0) M k 0 []) by exact Hk.
  reflexivity.
Qed.

(** Every entry of a block of [P] lies between 0 and 1. *)
Lemma P_of_entry_bounds (flnpi : list xfloat) (ui : matrix) (c k j : nat) :
  is_matrix (length flnpi) c ui -> Exists is_fin flnpi ->
  (k < length flnpi)%nat -> (j < c)%nat ->
  0 <= entry (P_of flnpi ui (u0_of flnpi ui)) k j <= 1.
Proof.
  intros Hshape Hfin Hk Hj.
  assert (Hne : flnpi <> []) by (intros E; rewrite E in Hfin; inversion Hfin).
  destruct (P_of_shape flnpi ui c Hne Hshape) as [[HPr HPc] Hu0].
  pose proof (P_of_column_sum flnpi ui c j Hshape Hfin Hj) as Hsum.
  assert (Hnn : Forall (fun x => 0 <= x)
                  (column j (P_of flnpi ui (u0_of flnpi ui)))).
  { unfold P_of.
    rewrite (column_exp_plus_row _ _ c);
      [| apply col_minus_rows, Hshape | exact Hu0 | exact Hj].
    apply Forall_forall. intros x Hin. apply in_map_iff in Hin.
    destruct Hin as (t & <- & _).
    apply Rmult_le_pos; [apply np_exp_nonneg | left; apply exp_pos]. }
  rewrite entry_column by lia. split.
  - rewrite Forall_forall in Hnn. apply Hnn, nth_In.
    unfold column. rewrite length_map. lia.
  - rewrite <- Hsum. apply nth_le_Rsum, Hnn.
Qed.

(** X4.  Every entry of [self.P] is a probability: it lies between 0
    and 1. *)
Theorem P_entries_between_0_and_1
  (MBAR_solve : matrix -> list nat -> R -> vec -> py mbar_MBAR)
  (cov : matrix -> list nat -> matrix)
  (tol : R) (mx mx' : mixture.t) (P : list matrix) (i k j : nat) :
  mixture_wf mx ->
  __initialize__ MBAR_solve cov tol mx = inr (mx', P) ->
  length (mixture.f mx') = mixture.m mx ->
  (i < mixture.m mx)%nat -> (k < mixture.m mx)%nat ->
  (j < nth i (mixture.n mx) 0)%nat ->
  0 <= entry (nth i P []) k j <= 1.
Proof.
  intros (Hn & Hu & _ & Hblocks & Hpos) Hinit Hf Hi Hk Hj.
  destruct (initialize_inv _ _ _ _ _ _ Hu Hinit)
    as (U & mb & _ & _ & -> & ->).
  cbn [mixture.f] in *.
  rewrite (nth_map_in _ _ _ _ 0%nat) by (rewrite length_seq; exact Hi).
  rewrite seq_nth by exact Hi. cbn [Nat.add]. cbv zeta.
  assert (Hlen : length (flnpi_of (f_k mb) (mixture.n mx)) = mixture.m mx)
    by (rewrite length_flnpi_of; lia).
  apply (P_of_entry_bounds _ _ (nth i (mixture.n mx) 0%nat)).
  - rewrite Hlen. apply Hblocks, Hi.
  - apply flnpi_has_fin; [lia | exact Hpos].
  - lia.
  - exact Hj.
Qed.

Lemma P_entries_between_0_and_1_witness :
  exists mx' P,
    __initialize__ solve0 cov0 1 mx0 = inr (mx', P) /\
    0 <= entry (nth 1 P []) 0 1 <= 1.
Proof.
  eexists _, _. split; [reflexivity|].
  apply (P_entries_between_0_and_1 solve0 cov0 1 mx0 _ _ 1 0 1
           mx0_wf eq_refl);
    simpl; solve [reflexivity | lia].
Defined.

(** *** Shifts of the exponents *)

Lemma xcolumn_mat_map_xplus (X : list (list xfloat)) (e : R) (j : nat) :
  xcolumn j (mat_map (fun t => xplus t e) X) =
  map (fun t => xplus t e) (xcolumn j X).
Proof.
  unfold xcolumn, mat_map. rewrite !map_map. apply map_ext. intros row.
  exact (map_nth (fun t => xplus t e) row NegInf j).
Qed.

Lemma logsumexp_axis0_xplus (X : list (list xfloat)) (e : R) :
  (forall j, (j < ncols X)%nat -> Exists is_fin (xcolumn j X)) ->
  logsumexp_axis0 (mat_map (fun t => xplus t e) X) =
  map (fun x => x + e) (logsumexp_axis0 X).
Proof.
  intros Hfin. unfold logsumexp_axis0.
  rewrite ncols_mat_map, map_map. apply map_ext_in. intros j Hj.
  apply in_seq in Hj. rewrite xcolumn_mat_map_xplus.
  apply logsumexp_shift, Hfin. lia.
Qed.

Lemma plus_row_xplus (X : list (list xfloat)) (v : vec) (e : R) :
  plus_row (mat_map (fun t => xplus t e) X) (map (fun y => y - e) v) =
  plus_row X v.
Proof.
  unfold plus_row, mat_map. rewrite map_map. apply map_ext. intros row.
  revert v. induction row as [|t row IH]; intros [|y v]; simpl;
    try reflexivity.
  f_equal; [|apply IH].
  rewrite xplus_xplus. f_equal. ring.
Qed.

Lemma col_minus_fin_columns (flnpi : list xfloat) (ui : matrix) (c j : nat) :
  is_matrix (length flnpi) c ui -> Exists is_fin flnpi ->
  (j < ncols (col_minus flnpi ui))%nat ->
  Exists is_fin (xcolumn j (col_minus flnpi ui)).
Proof.
  intros [Hrows Hcols] Hfin Hj.
  assert (Hne : flnpi <> []) by (intros E; rewrite E in Hfin; inversion Hfin).
  rewrite ncols_col_minus in Hj by exact Hne.
  assert (Hc : ncols ui = c).
  { apply (ncols_is_matrix (length flnpi)); [split; assumption|].
    destruct flnpi; [congruence | simpl; lia]. }
  rewrite (xcolumn_col_minus _ _ c) by (assumption || lia).
  apply (Exists_fin_combine (fun row => - nth j row 0)); [lia | exact Hfin].
Qed.

(** What a common shift [e] of all the exponents [flnpi - u] of a block
    does: the normalizer [u0] absorbs it, [P] does not change. *)
Lemma P_of_exponent_shift (X X' : list (list xfloat)) (e : R) :
  X' = mat_map (fun t => xplus t e) X ->
  (forall j, (j < ncols X)%nat -> Exists is_fin (xcolumn j X)) ->
  map Ropp (logsumexp_axis0 X') =
    map (fun x => x - e) (map Ropp (logsumexp_axis0 X)) /\
  mat_map np_exp (plus_row X' (map Ropp (logsumexp_axis0 X'))) =
    mat_map np_exp (plus_row X (map Ropp (logsumexp_axis0 X))).
Proof.
  intros -> Hfin.
  assert (E : map Ropp (logsumexp_axis0 (mat_map (fun t => xplus t e) X)) =
              map (fun x => x - e) (map Ropp (logsumexp_axis0 X))).
  { rewrite logsumexp_axis0_xplus by exact Hfin. rewrite !map_map.
    apply map_ext. intros x. ring. }
  split; [exact E|]. rewrite E, plus_row_xplus. reflexivity.
Qed.

Lemma col_minus_shift_potentials (a : list xfloat) (M : matrix) (c : R) :
  col_minus a (mat_map (fun x => x + c) M) =
  mat_map (fun t => xplus t (- c)) (col_minus a M).
Proof.
  unfold col_minus, mat_map. rewrite map_combine_map_r, map_map.
  apply map_ext. intros [t row]. cbn [fst snd]. rewrite !map_map.
  apply map_ext. intros x. rewrite xplus_xplus. f_equal. ring.
Qed.

Lemma col_minus_shift_free_energies (a : list xfloat) (M : matrix) (d : R) :
  col_minus (map (fun t => xplus t d) a) M =
  mat_map (fun t => xplus t d) (col_minus a M).
Proof.
  unfold col_minus, mat_map. rewrite map_combine_map_l, map_map.
  apply map_ext. intros [t row]. cbn [fst snd]. rewrite !map_map.
  apply map_ext. intros x. rewrite !xplus_xplus. f_equal. ring.
Qed.

Lemma flnpi_of_shift (fv : vec) (nv : list nat) (d : R) :
  flnpi_of (map (fun x => x + d) fv) nv =
  map (fun t => xplus t d) (flnpi_of fv nv).
Proof.
  unfold flnpi_of. rewrite map_combine_map_l, map_map.
  apply map_ext. intros [x k]. cbn [fst snd]. rewrite xplus_xplus.
  reflexivity.
Qed.

Lemma u0_P_shift_potentials (flnpi : list xfloat) (ui : matrix) (c : nat)
  (d : R) :
  is_matrix (length flnpi) c ui -> Exists is_fin flnpi ->
  let ui' := mat_map (fun x => x + d) ui in
  u0_of flnpi ui' = map (fun x => x + d) (u0_of flnpi ui) /\
  P_of flnpi ui' (u0_of flnpi ui') = P_of flnpi ui (u0_of flnpi ui).
Proof.
  intros Hshape Hfin ui'. unfold u0_of, P_of, ui'.
  destruct (P_of_exponent_shift (col_minus flnpi ui) _ (- d)
              (col_minus_shift_potentials flnpi ui d)
              (fun j => col_minus_fin_columns flnpi ui c j Hshape Hfin))
    as [E1 E2].
  split; [|exact E2]. rewrite E1. apply map_ext. intros x. ring.
Qed.

Lemma u0_P_shift_free_energies (fv : vec) (nv : list nat) (ui : matrix)
  (c : nat) (d : R) :
  let flnpi := flnpi_of fv nv in
  let flnpi' := flnpi_of (map (fun x => x + d) fv) nv in
  is_matrix (length flnpi) c ui -> Exists is_fin flnpi ->
  u0_of flnpi' ui = map (fun x => x - d) (u0_of flnpi ui) /\
  P_of flnpi' ui (u0_of flnpi' ui) = P_of flnpi ui (u0_of flnpi ui).
Proof.
  intros flnpi flnpi' Hshape Hfin. unfold u0_of, P_of, flnpi'.
  rewrite flnpi_of_shift. fold flnpi.
  exact (P_of_exponent_shift (col_minus flnpi ui) _ d
           (col_minus_shift_free_energies flnpi ui d)
           (fun j => col_minus_fin_columns flnpi ui c j Hshape Hfin)).
Qed.

(** X5.  [self.P] does not see a common shift of the potentials: when
    the solver returns the same free energies for a well-shaped mixture
    and for the mixture with every potential shifted by [c],
    [__initialize__] builds the same [P], and every entry of
    [mixture.u0] is larger by [c]. *)
Theorem P_invariant_under_potential_shift
  (MBAR_solve : matrix -> list nat -> R -> vec -> py mbar_MBAR)
  (cov : matrix -> list nat -> matrix)
  (tol c : R) (mx mx1 mx2 : mixture.t) (P1 P2 : list matrix) :
  mixture_wf mx ->
  __initialize__ MBAR_solve cov tol mx = inr (mx1, P1) ->
  __initialize__ MBAR_solve cov tol (shift_potentials c mx) = inr (mx2, P2) ->
  mixture.f mx2 = mixture.f mx1 ->
  length (mixture.f mx1) = mixture.m mx ->
  P2 = P1 /\
  mixture.u0 mx2 = map (map (fun x => x + c)) (mixture.u0 mx1).
Proof.
  intros (Hn & Hu & _ & Hblocks & Hpos) H1 H2 Hf Hlen.
  destruct (initialize_inv _ _ _ _ _ _ Hu H1)
    as (U1 & mb1 & _ & _ & -> & ->).
  assert (Hu' : length (mixture.u (shift_potentials c mx))
                = mixture.m (shift_potentials c mx))
    by (cbn [shift_potentials mixture.u mixture.m]; rewrite length_map;
        exact Hu).
  destruct (initialize_inv _ _ _ _ _ _ Hu' H2)
    as (U2 & mb2 & _ & _ & -> & ->).
  cbn [mixture.f mixture.u0 mixture.u mixture.n mixture.m shift_potentials]
    in *.
  rewrite Hf. clear Hf.
  set (flnpi := flnpi_of (f_k mb1) (mixture.n mx)).
  assert (HL : length flnpi = mixture.m mx)
    by (unfold flnpi; rewrite length_flnpi_of; lia).
  assert (Hfin : Exists is_fin flnpi)
    by (apply flnpi_has_fin; [lia | exact Hpos]).
  assert (Hshift : forall i, (i < mixture.m mx)%nat ->
            let ui := nth i (mixture.u mx) [] in
            let ui' := mat_map (fun x => x + c) ui in
            u0_of flnpi ui' = map (fun x => x + c) (u0_of flnpi ui) /\
            P_of flnpi ui' (u0_of flnpi ui') = P_of flnpi ui (u0_of flnpi ui)).
  { intros i Hi.
    apply (u0_P_shift_potentials flnpi _ (nth i (mixture.n mx) 0%nat) c);
      [rewrite HL; apply Hblocks, Hi | exact Hfin]. }
  split.
  - apply map_ext_in. intros i Hi. apply in_seq in Hi. cbv zeta.
    rewrite (nth_map_in (mat_map (fun x => x + c)) _ _ _ [])
      by (unfold matrix in *; lia).
    apply (Hshift i). lia.
  - rewrite !map_map. apply map_ext_in. intros ui Hin.
    destruct (In_nth _ _ [] Hin) as (i & Hi & <-).
    apply (Hshift i). unfold matrix in *. lia.
Qed.

Lemma P_invariant_under_potential_shift_witness :
  exists mx1 P1 mx2 P2,
    __initialize__ solve0 cov0 1 mx0 = inr (mx1, P1) /\
    __initialize__ solve0 cov0 1 (shift_potentials 5 mx0) = inr (mx2, P2) /\
    P2 = P1 /\
    mixture.u0 mx2 = map (map (fun x => x + 5)) (mixture.u0 mx1).
Proof.
  eexists _, _, _, _. split; [reflexivity|]. split; [reflexivity|].
  apply (P_invariant_under_potential_shift solve0 cov0 1 5 mx0 _ _ _ _
           mx0_wf eq_refl eq_refl eq_refl eq_refl).
Defined.

(** X6.  [self.P] does not depend on the gauge of the free energies:
    when two solvers return free energies that differ by a constant [d]
    in every state, [__initialize__] builds the same [P], and every entry
    of [mixture.u0] is smaller by [d]. *)
Theorem P_invariant_under_free_energy_gauge
  (solve1 solve2 : matrix -> list nat -> R -> vec -> py mbar_MBAR)
  (cov : matrix -> list nat -> matrix)
  (tol d : R) (mx mx1 mx2 : mixture.t) (P1 P2 : list matrix) :
  mixture_wf mx ->
  __initialize__ solve1 cov tol mx = inr (mx1, P1) ->
  __initialize__ solve2 cov tol mx = inr (mx2, P2) ->
  mixture.f mx2 = map (fun x => x + d) (mixture.f mx1) ->
  length (mixture.f mx1) = mixture.m mx ->
  P2 = P1 /\
  mixture.u0 mx2 = map (map (fun x => x - d)) (mixture.u0 mx1).
Proof.
  intros (Hn & Hu & _ & Hblocks & Hpos) H1 H2 Hf Hlen.
  destruct (initialize_inv _ _ _ _ _ _ Hu H1)
    as (U1 & mb1 & _ & _ & -> & ->).
  destruct (initialize_inv _ _ _ _ _ _ Hu H2)
    as (U2 & mb2 & _ & _ & -> & ->).
  cbn [mixture.f mixture.u0] in *. rewrite Hf. clear Hf.
  assert (HL : length (flnpi_of (f_k mb1) (mixture.n mx)) = mixture.m mx)
    by (rewrite length_flnpi_of; lia).
  assert (Hfin : Exists is_fin (flnpi_of (f_k mb1) (mixture.n mx)))
    by (apply flnpi_has_fin; [lia | exact Hpos]).
  assert (Hshift : forall i, (i < mixture.m mx)%nat ->
            let ui := nth i (mixture.u mx) [] in
            let flnpi := flnpi_of (f_k mb1) (mixture.n mx) in
            let flnpi' :=
              flnpi_of (map (fun x => x + d) (f_k mb1)) (mixture.n mx) in
            u0_of flnpi' ui = map (fun x => x - d) (u0_of flnpi ui) /\
            P_of flnpi' ui (u0_of flnpi' ui) = P_of flnpi ui (u0_of flnpi ui)).
  { intros i Hi.
    apply (u0_P_shift_free_energies _ _ _ (nth i (mixture.n mx) 0%nat) d);
      [rewrite HL; apply Hblocks, Hi | exact Hfin]. }
  split.
  - apply map_ext_in. intros i Hi. apply in_seq in Hi. cbv zeta.
    apply (Hshift i). lia.
  - rewrite map_map. apply map_ext_in. intros ui Hin.
    destruct (In_nth _ _ [] Hin) as (i & Hi & <-).
    apply (Hshift i). unfold matrix in *. lia.
Qed.

Lemma P_invariant_under_free_energy_gauge_witness :
  exists mx1 P1 mx2 P2,
    __initialize__ solve0 cov0 1 mx0 = inr (mx1, P1) /\
    __initialize__ solve0_gauge cov0 1 mx0 = inr (mx2, P2) /\
    P2 = P1 /\
    mixture.u0 mx2 = map (map (fun x => x - 1)) (mixture.u0 mx1).
Proof.
  eexists _, _, _, _. split; [reflexivity|]. split; [reflexivity|].
  apply (P_invariant_under_free_energy_gauge solve0 solve0_gauge cov0 1 1
           mx0 _ _ _ _ mx0_wf eq_refl eq_refl eq_refl eq_refl).
Defined.

(** ** The rows of the overlap matrix *)

Lemma dot_nil_r (x : vec) : dot x [] = 0.
Proof. unfold dot. destruct x; reflexivity. Qed.

Lemma dot_cons (a b : R) (x y : vec) :
  dot (a :: x) (b :: y) = a * b + dot x y.
Proof. reflexivity. Qed.

Lemma dot_map_zero {A : Type} (v : vec) (l : list A) :
  dot v (map (fun _ => 0) l) = 0.
Proof.
  revert v. induction l as [|a l IH]; intros [|x v]; try reflexivity.
  simpl map. rewrite dot_cons, IH. ring.
Qed.

Lemma dot_map_linear {A : Type} (v : vec) (a : R) (g h : A -> R)
  (l : list A) :
  dot v (map (fun j => a * g j + h j) l) =
  a * dot v (map g l) + dot v (map h l).
Proof.
  revert v. induction l as [|j l IH]; intros [|x v]; simpl map.
  - unfold dot; simpl; ring.
  - rewrite !dot_nil_r. ring.
  - unfold dot; simpl; ring.
  - rewrite !dot_cons, IH. ring.
Qed.

Lemma map_nth_seq (row : vec) :
  map (fun j => nth j row 0) (seq 0 (length row)) = row.
Proof.
  induction row as [|x row IH]; [reflexivity|]. simpl. f_equal.
  rewrite <- seq_shift, map_map. exact IH.
Qed.

(** v^T (W^T x) = x^T (W v). *)
Lemma dot_transpose (W : matrix) (v x : vec) (K : nat) :
  Forall (fun row => length row = K) W ->
  dot v (map (fun j => dot x (column j W)) (seq 0 K)) =
  dot x (map (fun row => dot v row) W).
Proof.
  intros HW. revert x. induction HW as [|row W Hrow _ IH]; intros x.
  - rewrite (map_ext (fun j => dot x (column j [])) (fun _ => 0))
      by (intros j; apply dot_nil_r).
    rewrite dot_map_zero. simpl map. rewrite dot_nil_r. reflexivity.
  - destruct x as [|x0 xs].
    + rewrite (map_ext (fun j => dot [] (column j (row :: W))) (fun _ => 0))
        by reflexivity.
      rewrite dot_map_zero. reflexivity.
    + rewrite (map_ext (fun j => dot (x0 :: xs) (column j (row :: W)))
                 (fun j => x0 * nth j row 0 + dot xs (column j W)))
        by reflexivity.
      rewrite dot_map_linear, IH. simpl map. rewrite dot_cons.
      rewrite <- Hrow, map_nth_seq. reflexivity.
Qed.

Lemma dot_ones {A : Type} (x : vec) (l : list A) :
  length x = length l -> dot x (map (fun _ => 1) l) = Rsum x.
Proof.
  revert l. induction x as [|a x IH]; intros [|b l] H; simpl in *;
    try lia; [reflexivity|].
  rewrite dot_cons, IH by lia. ring.
Qed.

(** The sum of a row of [N_k * np.matmul(W.T, W)] when every row of [W]
    is normalized. *)
Lemma overlap_row_sum (Nk : list nat) (W : matrix) (Ns K i : nat) :
  is_matrix Ns K W -> (0 < Ns)%nat -> (i < K)%nat ->
  Forall (fun row => dot (map INR Nk) row = 1) W ->
  Rsum (nth i (row_scale (map INR Nk) (matmul (transpose W) W)) []) =
  Rsum (column i W).
Proof.
  intros HW Hpos Hi Hnorm.
  pose proof (ncols_is_matrix _ _ _ HW Hpos) as Hc.
  destruct HW as [Hr Hrows].
  unfold row_scale.
  rewrite (nth_map_in _ (matmul (transpose W) W) i [] [])
    by (unfold matmul; rewrite length_map, length_transpose; lia).
  fold (dot (map INR Nk) (nth i (matmul (transpose W) W) [])).
  unfold matmul.
  rewrite (nth_map_in _ (transpose W) i [] [])
    by (rewrite length_transpose; lia).
  rewrite nth_transpose by lia. rewrite Hc.
  rewrite (dot_transpose W _ _ K Hrows).
  rewrite (map_ext_in _ (fun _ => 1)).
  - apply dot_ones. unfold column. apply length_map.
  - intros row Hin. rewrite Forall_forall in Hnorm. apply Hnorm, Hin.
Qed.

(** X7.  When every row of the solver's weight matrix is normalized,
    sum_j N_j W[n][j] = 1, row [i] of the overlap matrix that
    [__initialize__] stores sums to sum_n W[n][i]. *)
Theorem overlap_rows_sum
  (MBAR_solve : matrix -> list nat -> R -> vec -> py mbar_MBAR)
  (cov : matrix -> list nat -> matrix)
  (tol : R) (mx mx' : mixture.t) (P : list matrix) (U : matrix)
  (mb : mbar_MBAR) (Ns K i : nat) :
  length (mixture.u mx) = mixture.m mx ->
  hstack (mixture.u mx) = inr U ->
  MBAR_solve U (mixture.n mx) tol (mixture.f mx) = inr mb ->
  __initialize__ MBAR_solve cov tol mx = inr (mx', P) ->
  is_matrix Ns K (W_nk mb) -> (0 < Ns)%nat -> (i < K)%nat ->
  Forall (fun row => dot (map INR (N_k mb)) row = 1) (W_nk mb) ->
  Rsum (nth i (mixture.Overlap mx') []) = Rsum (column i (W_nk mb)).
Proof.
  intros Hu HU Hmb Hinit HW Hpos Hi Hnorm.
  destruct (initialize_inv _ _ _ _ _ _ Hu Hinit)
    as (U' & mb' & HU' & Hmb' & -> & _).
  rewrite HU in HU'. injection HU' as <-.
  rewrite Hmb in Hmb'. injection Hmb' as <-.
  cbn [mixture.Overlap]. apply (overlap_row_sum _ _ Ns K); assumption.
Qed.

Lemma overlap_rows_sum_witness :
  exists mx' P,
    __initialize__ solve0 cov0 1 mx0 = inr (mx', P) /\
    Rsum (nth 1 (mixture.Overlap mx') []) = Rsum (column 1 (W_nk mb0)).
Proof.
  eexists _, _. split; [reflexivity|].
  apply (overlap_rows_sum solve0 cov0 1 mx0 _ _ U0 mb0 3 2 1
           eq_refl eq_refl eq_refl eq_refl).
  - split; [reflexivity | repeat constructor].
  - lia.
  - lia.
  - repeat constructor; unfold dot; simpl; field.
Defined.

(** ** The inputs of [__reweight__] *)

Lemma map_py_getitem_rows (blocks : list matrix) (ref : nat) :
  (forall x, In x blocks -> (ref < nrows x)%nat) ->
  map_py (fun x => getitem x ref) blocks =
  inr (map (fun x => nth ref x []) blocks).
Proof.
  intros H. apply map_py_ok. intros x Hx.
  apply getitem_ok. exact (H x Hx).
Qed.

Lemma map_py_getitem_out_of_range (blocks : list matrix) (ref : nat) :
  (exists x, In x blocks /\ (nrows x <= ref)%nat) ->
  map_py (fun x => getitem x ref) blocks = inl IndexError.
Proof.
  intros (x & Hin & Hx). induction blocks as [|b bs IH]; [destruct Hin|].
  simpl. destruct (getitem b ref) as [e|row] eqn:E.
  - rewrite (getitem_err _ _ _ E). reflexivity.
  - simpl. destruct Hin as [->|Hin].
    + unfold getitem in E. destruct (nth_error x ref) eqn:E'; [|discriminate].
      assert (ref < length x)%nat
        by (apply nth_error_Some; rewrite E'; discriminate).
      unfold nrows in Hx. lia.
    + rewrite (IH Hin). reflexivity.
Qed.

Lemma nth_hstack_rows (blocks : list matrix) (r : nat) :
  (r < nrows (hd [] blocks))%nat ->
  nth r (hstack_rows blocks) [] = concat (map (fun b => nth r b []) blocks).
Proof.
  intros Hr. unfold hstack_rows.
  rewrite (nth_map_in _ _ _ _ 0%nat) by (rewrite length_seq; exact Hr).
  rewrite seq_nth by exact Hr. reflexivity.
Qed.

Lemma mixture_wf_blocks (mx : mixture.t) :
  mixture_wf mx ->
  mixture.u mx <> [] /\
  nrows (hd [] (mixture.u mx)) = mixture.m mx /\
  forall x, In x (mixture.u mx) -> nrows x = mixture.m mx.
Proof.
  intros (Hn & Hu & _ & Hblocks & Hpos).
  assert (Hall : forall x, In x (mixture.u mx) -> nrows x = mixture.m mx).
  { intros x Hin. destruct (In_nth _ _ [] Hin) as (i & Hi & <-).
    apply (Hblocks i). unfold matrix in *. lia. }
  assert (Hne : mixture.u mx <> []).
  { intros E. rewrite E in Hu. simpl in Hu.
    destruct (mixture.n mx); simpl in *; lia. }
  split; [exact Hne|]. split; [|exact Hall].
  destruct (mixture.u mx) as [|b bs]; [congruence|].
  apply Hall. left. reflexivity.
Qed.

(** The row of the reference state. *)
Lemma reference_row (mx : mixture.t) (ref : nat) :
  mixture_wf mx -> (ref < mixture.m mx)%nat ->
  (rows <- map_py (fun x => getitem x ref) (mixture.u mx) ;; hstack1 rows) =
  inr (nth ref (hstack_rows (mixture.u mx)) []) /\
  length (nth ref (hstack_rows (mixture.u mx)) []) = nat_sum (mixture.n mx).
Proof.
  intros Hwf Href.
  destruct (mixture_wf_blocks mx Hwf) as (Hne & Hhd & Hall).
  destruct Hwf as (Hn & Hu & _ & Hblocks & Hpos).
  rewrite nth_hstack_rows by lia. split.
  - rewrite map_py_getitem_rows
      by (intros x Hx; rewrite (Hall x Hx); exact Href).
    cbn [bind]. unfold hstack1.
    destruct (mixture.u mx) as [|b bs]; [congruence | reflexivity].
  - apply (length_hstack_row _ _ (mixture.m mx));
      [lia | intros i Hi; apply Hblocks; unfold matrix in *; lia
      | exact Href].
Qed.

(** X8.  For a well-shaped mixture and a reference state in range,
    [__reweight__] stacks the potentials of the new state over row [ref]
    of the pooled potential matrix [np.hstack(mixture.u)], provided the
    new potentials have one value per sample of the pool. *)
Theorem u_ln_rows (mx : mixture.t) (u : list matrix) (ref : nat)
  (unew : matrix) :
  mixture_wf mx -> (ref < mixture.m mx)%nat ->
  hstack u = inr unew ->
  length (flatten unew) = nat_sum (mixture.n mx) ->
  u_ln_of mx u ref =
  inr [flatten unew; nth ref (hstack_rows (mixture.u mx)) []].
Proof.
  intros Hwf Href Hu Hlen. unfold u_ln_of. rewrite Hu. cbn [bind].
  destruct (reference_row mx ref Hwf Href) as [E L]. rewrite E. cbn [bind].
  unfold stack2. rewrite Hlen, L, Nat.eqb_refl. reflexivity.
Qed.

Lemma u_ln_rows_witness :
  u_ln_of mx0 unew0 1 =
  inr [flatten [[0; 0; 0]]; nth 1 (hstack_rows (mixture.u mx0)) []].
Proof.
  apply (u_ln_rows mx0 unew0 1 [[0; 0; 0]] mx0_wf);
    solve [reflexivity | simpl; lia].
Defined.

(** X9.  A reference state that some block of the mixture does not have
    makes [__reweight__] raise [IndexError], whatever the estimator: the
    estimator is not called. *)
Theorem reweight_reference_out_of_range
  (est : matrix -> matrix -> int_array -> py results.t)
  (mx : mixture.t) (u y : list matrix) (ref : nat) (unew : matrix) :
  hstack u = inr unew ->
  (exists x, In x (mixture.u mx) /\ (nrows x <= ref)%nat) ->
  __reweight__ est mx u y ref = inl IndexError.
Proof.
  intros Hu Hx. unfold __reweight__, u_ln_of. rewrite Hu. cbn [bind].
  rewrite (map_py_getitem_out_of_range _ _ Hx). reflexivity.
Qed.

Lemma reweight_reference_out_of_range_witness :
  __reweight__ est0 mx0 unew0 y_one 2 = inl IndexError.
Proof.
  apply (reweight_reference_out_of_range est0 mx0 unew0 y_one 2
           [[0; 0; 0]] eq_refl).
  exists [[0]; [0]]. split; [left; reflexivity | simpl; lia].
Defined.

(** X10.  New potentials that do not have one value per sample of the
    pool make [__reweight__] raise [ValueError] (in [np.stack]),
    whatever the estimator. *)
Theorem reweight_potentials_length_mismatch
  (est : matrix -> matrix -> int_array -> py results.t)
  (mx : mixture.t) (u y : list matrix) (ref : nat) (unew : matrix) :
  mixture_wf mx -> (ref < mixture.m mx)%nat ->
  hstack u = inr unew ->
  length (flatten unew) <> nat_sum (mixture.n mx) ->
  __reweight__ est mx u y ref = inl ValueError.
Proof.
  intros Hwf Href Hu Hlen. unfold __reweight__, u_ln_of.
  rewrite Hu. cbn [bind].
  destruct (reference_row mx ref Hwf Href) as [E L]. rewrite E. cbn [bind].
  unfold stack2. rewrite L.
  destruct (Nat.eqb_spec (length (flatten unew)) (nat_sum (mixture.n mx)));
    [contradiction | reflexivity].
Qed.

Lemma reweight_potentials_length_mismatch_witness :
  __reweight__ est0 mx0 unew_bad y_one 0 = inl ValueError.
Proof.
  apply (reweight_potentials_length_mismatch est0 mx0 unew_bad y_one 0
           [[0; 0]] mx0_wf).
  - simpl; lia.
  - reflexivity.
  - simpl; lia.
Defined.

(** X11.  Observables given as an empty list, or as blocks that disagree
    in their number of rows (of observables), make [__reweight__] raise
    [ValueError] (in [np.hstack]), whatever the estimator. *)
Theorem reweight_observables_not_stackable
  (est : matrix -> matrix -> int_array -> py results.t)
  (mx : mixture.t) (u y : list matrix) (ref : nat) (u_ln : matrix) :
  u_ln_of mx u ref = inr u_ln ->
  (y = [] \/
   exists b bs b', y = b :: bs /\ In b' bs /\ nrows b' <> nrows b) ->
  __reweight__ est mx u y ref = inl ValueError.
Proof.
  intros Hu Hy. unfold __reweight__. rewrite Hu. cbn [bind].
  destruct Hy as [-> | (b & bs & b' & -> & Hin & Hne)].
  - reflexivity.
  - rewrite (hstack_ragged b b' bs Hin Hne). reflexivity.
Qed.

Lemma reweight_observables_not_stackable_witness :
  __reweight__ est0 mx0 unew0 y_ragged 0 = inl ValueError.
Proof.
  apply (reweight_observables_not_stackable est0 mx0 unew0 y_ragged 0
           [[0; 0; 0]; [0; 0; 0]] eq_refl).
  right. exists [[5]], [[[6; 7]; [8; 9]]], [[6; 7]; [8; 9]].
  split; [reflexivity|]. split; [left; reflexivity | simpl; lia].
Defined.

(** X12.  When the estimator returns fewer free energies than
    [__reweight__] reads (two without observables, [n + 1] with [n >= 1]
    observables), [__reweight__] raises [IndexError]. *)
Theorem reweight_too_few_free_energies
  (est : matrix -> matrix -> int_array -> py results.t)
  (mx : mixture.t) (u y : list matrix) (ref : nat) (u_ln A_n : matrix)
  (res : results.t) :
  u_ln_of mx u ref = inr u_ln ->
  hstack y = inr A_n ->
  est A_n u_ln (smap_of (nrows A_n)) = inr res ->
  (length (results.f res) <= Nat.max 1 (nrows A_n))%nat ->
  __reweight__ est mx u y ref = inl IndexError.
Proof.
  intros Hu Hy Hest Hlen. unfold __reweight__.
  rewrite Hu. cbn [bind]. rewrite Hy. cbn [bind]. rewrite Hest. cbn [bind].
  assert (Hget : forall i, (length (results.f res) <= i)%nat ->
            getitem (results.f res) i = inl IndexError).
  { intros i Hi. unfold getitem.
    destruct (nth_error (results.f res) i) eqn:E; [|reflexivity].
    assert (i < length (results.f res))%nat
      by (apply nth_error_Some; rewrite E; discriminate).
    lia. }
  destruct (Nat.eqb_spec (nrows A_n) 0) as [E0|E0].
  - rewrite E0 in Hlen.
    destruct (getitem (results.f res) 0) as [e|f0] eqn:G0.
    + rewrite (getitem_err _ _ _ G0). reflexivity.
    + cbn [bind]. rewrite (Hget 1%nat) by (simpl in Hlen; lia). reflexivity.
  - destruct (getitem (results.f res) 0) as [e|f0] eqn:G0.
    + rewrite (getitem_err _ _ _ G0). reflexivity.
    + cbn [bind]. rewrite (Hget (nrows A_n)) by lia. reflexivity.
Qed.

Lemma reweight_too_few_free_energies_witness :
  __reweight__ est_short mx0 unew0 y_one 0 = inl IndexError.
Proof.
  apply (reweight_too_few_free_energies est_short mx0 unew0 y_one 0
           [[0; 0; 0]; [0; 0; 0]] [[5; 6; 7]] res_short
           eq_refl eq_refl eq_refl).
  simpl. lia.
Defined.

(** ** The covariance that [__reweight__] returns *)

Lemma Rsum_map_plus {A : Type} (g h : A -> R) (l : list A) :
  Rsum (map (fun r => g r + h r) l) = Rsum (map g l) + Rsum (map h l).
Proof.
  induction l as [|a l IH]; simpl; [lra|]. rewrite IH. lra.
Qed.

Lemma Rsum_map_single (g : nat -> R) (p s len : nat) :
  Rsum (map (fun r => if (r =? p)%nat then g r else 0) (seq s len)) =
  if ((s <=? p) && (p <? s + len))%nat then g p else 0.
Proof.
  revert s. induction len as [|len IH]; intros s; simpl.
  - destruct (Nat.leb_spec s p), (Nat.ltb_spec p (s + 0)); simpl;
      try reflexivity; lia.
  - rewrite IH.
    destruct (Nat.eqb_spec s p) as [->|Hne].
    + destruct (Nat.leb_spec (S p) p); [lia|].
      destruct (Nat.leb_spec p p); [|lia].
      destruct (Nat.ltb_spec p (p + S len)); [|lia]. simpl. ring.
    + destruct (Nat.leb_spec (S s) p), (Nat.leb_spec s p),
        (Nat.ltb_spec p (S s + len)), (Nat.ltb_spec p (s + S len));
        simpl; try lia; ring.
Qed.

Lemma dot_as_sum (x w : vec) :
  length x = length w ->
  dot x w = Rsum (map (fun r => nth r x 0 * nth r w 0) (seq 0 (length x))).
Proof.
  revert w. induction x as [|a x IH]; intros [|b w] H; simpl in *;
    try lia; [reflexivity|].
  rewrite dot_cons, (IH w) by lia.
  rewrite <- seq_shift, map_map. reflexivity.
Qed.

(** The product of a vector with the two entries [v] and [-v] and any
    other vector. *)
Lemma dot_two_point (x w : vec) (p q : nat) (v : R) :
  length x = length w -> (p < length x)%nat -> (q < length x)%nat ->
  p <> q ->
  (forall r, (r < length x)%nat ->
     nth r x 0 = if (r =? p)%nat then v
                 else if (r =? q)%nat then - v else 0) ->
  dot x w = v * (nth p w 0 - nth q w 0).
Proof.
  intros Hlen Hp Hq Hpq Hx. rewrite dot_as_sum by exact Hlen.
  rewrite (map_ext_in _
             (fun r => (if (r =? p)%nat then v * nth r w 0 else 0)
                       + (if (r =? q)%nat then - v * nth r w 0 else 0))).
  - rewrite Rsum_map_plus.
    rewrite (Rsum_map_single (fun r => v * nth r w 0)).
    rewrite (Rsum_map_single (fun r => - v * nth r w 0)).
    destruct (Nat.leb_spec 0 p); [|lia].
    destruct (Nat.leb_spec 0 q); [|lia].
    destruct (Nat.ltb_spec p (0 + length x)); [|lia].
    destruct (Nat.ltb_spec q (0 + length x)); [|lia].
    simpl. ring.
  - intros r Hr. apply in_seq in Hr. rewrite Hx by lia.
    destruct (Nat.eqb_spec r p) as [->|Hrp].
    + destruct (Nat.eqb_spec p q); [contradiction | ring].
    + destruct (Nat.eqb_spec r q); ring.
Qed.

Lemma dot_comm (x y : vec) : dot x y = dot y x.
Proof.
  revert y. induction x as [|a x IH]; intros [|b y];
    rewrite ?dot_nil_r; try reflexivity.
  rewrite !dot_cons, IH. ring.
Qed.

Lemma jacobian_entry_two_point (n : nat) (y Amin : vec) (r c : nat) :
  (1 <= n)%nat ->
  jacobian_entry n y Amin r c =
  if (r =? gradient_row_plus n c)%nat then gradient_value y Amin c
  else if (r =? gradient_row_minus n c)%nat then - gradient_value y Amin c
  else 0.
Proof.
  intros Hn. destruct c as [|i];
    cbn [jacobian_entry gradient_row_plus gradient_row_minus gradient_value].
  - destruct (Nat.eqb_spec r (n + 1)), (Nat.eqb_spec r (2 * n + 1));
      try lra; lia.
  - reflexivity.
Qed.

Lemma gradient_rows_in_range (n c : nat) :
  (1 <= n)%nat -> (c < n + 1)%nat ->
  (gradient_row_plus n c < 2 * (n + 1))%nat /\
  (gradient_row_minus n c < 2 * (n + 1))%nat /\
  gradient_row_plus n c <> gradient_row_minus n c.
Proof.
  intros Hn Hc. destruct c as [|i]; simpl; lia.
Qed.

(** The product of a column of the gradient with any vector. *)
Lemma dot_gradient_column (n : nat) (y Amin : vec) (G : matrix) (w : vec)
  (c : nat) :
  (1 <= n)%nat -> (c < n + 1)%nat ->
  is_matrix (2 * (n + 1)) (n + 1) G ->
  (forall r c', (c' < n + 1)%nat ->
     entry G r c' = jacobian_entry n y Amin r c') ->
  length w = (2 * (n + 1))%nat ->
  dot (column c G) w =
  gradient_value y Amin c *
  (nth (gradient_row_plus n c) w 0 - nth (gradient_row_minus n c) w 0).
Proof.
  intros Hn Hc [HG _] Hentry Hw.
  destruct (gradient_rows_in_range n c Hn Hc) as (Hp & Hq & Hpq).
  assert (HL : length (column c G) = (2 * (n + 1))%nat)
    by (unfold column; rewrite length_map; exact HG).
  apply dot_two_point; try (rewrite HL; assumption); try assumption.
  - rewrite HL, Hw. reflexivity.
  - intros r Hr. rewrite HL in Hr.
    rewrite <- entry_column by lia.
    rewrite Hentry by exact Hc. apply jacobian_entry_two_point, Hn.
Qed.

(** What [__reweight__] returns for [n >= 1] observables. *)
Lemma reweight_many_inv
  (est : matrix -> matrix -> int_array -> py results.t)
  (mx : mixture.t) (u y : list matrix) (ref : nat) (u_ln A_n : matrix)
  (res : results.t) (n : nat) :
  u_ln_of mx u ref = inr u_ln ->
  hstack y = inr A_n -> nrows A_n = n -> (1 <= n)%nat ->
  est A_n u_ln (smap_of n) = inr res ->
  results_fit n res ->
  exists G,
    gradient n (firstn n (results.observables res)) (results.Amin res)
      = inr G /\
    is_matrix (2 * (n + 1)) (n + 1) G /\
    (forall r c, (c < n + 1)%nat ->
       entry G r c =
       jacobian_entry n (results.observables res) (results.Amin res) r c) /\
    __reweight__ est mx u y ref =
      inr ([nth 0 (results.f res) 0 - nth n (results.f res) 0]
             ++ firstn n (results.observables res),
           matmul (transpose G) (matmul (results.Theta res) G)).
Proof.
  intros Hu HA Hrows Hn Hest (Hf & Hobs & HAmin & HT).
  destruct (gradient_spec n (firstn n (results.observables res))
              (results.Amin res) Hn)
    as (G & EG & HG & Hentry); [rewrite length_firstn; lia | lia |].
  assert (HcG : ncols G = (n + 1)%nat)
    by (apply (ncols_is_matrix _ _ _ HG); lia).
  assert (HcT : ncols (results.Theta res) = (2 * (n + 1))%nat)
    by (apply (ncols_is_matrix _ _ _ HT); lia).
  exists G. split; [exact EG|]. split; [exact HG|]. split.
  - intros r c Hc. rewrite Hentry by exact Hc.
    apply jacobian_entry_firstn, Hc.
  - unfold __reweight__. rewrite Hu. cbn [bind]. rewrite HA. cbn [bind].
    rewrite Hrows, Hest. cbn [bind].
    destruct (Nat.eqb_spec n 0) as [E|_]; [lia|].
    rewrite (getitem_ok _ 0 0), (getitem_ok _ n 0) by lia. cbn [bind].
    rewrite EG. cbn [bind]. unfold multi_dot3.
    rewrite ncols_transpose by lia. rewrite HcT. unfold nrows.
    destruct HG as [HrG _], HT as [HrT _]. rewrite HrG, HrT.
    rewrite Nat.eqb_refl. reflexivity.
Qed.

(** The entries of G^T Theta G for the gradient [G]. *)
Lemma covariance_entry (n : nat) (y Amin : vec) (G Theta : matrix)
  (a b : nat) :
  (1 <= n)%nat -> (a < n + 1)%nat -> (b < n + 1)%nat ->
  is_matrix (2 * (n + 1)) (n + 1) G ->
  (forall r c, (c < n + 1)%nat ->
     entry G r c = jacobian_entry n y Amin r c) ->
  is_matrix (2 * (n + 1)) (2 * (n + 1)) Theta ->
  entry (matmul (transpose G) (matmul Theta G)) a b =
  gradient_value y Amin a * gradient_value y Amin b *
  (entry Theta (gradient_row_plus n a) (gradient_row_plus n b)
   - entry Theta (gradient_row_plus n a) (gradient_row_minus n b)
   - entry Theta (gradient_row_minus n a) (gradient_row_plus n b)
   + entry Theta (gradient_row_minus n a) (gradient_row_minus n b)).
Proof.
  intros Hn Ha Hb HG Hentry HT.
  assert (HcG : ncols G = (n + 1)%nat)
    by (apply (ncols_is_matrix _ _ _ HG); lia).
  assert (HneT : Theta <> []).
  { destruct HT as [HT _]. intros E. rewrite E in HT. simpl in HT. lia. }
  destruct (gradient_rows_in_range n a Hn Ha) as (Hpa & Hqa & _).
  rewrite entry_matmul;
    [| rewrite length_transpose; lia
     | rewrite ncols_matmul by exact HneT; lia].
  rewrite nth_transpose by lia. rewrite column_matmul by lia.
  rewrite (dot_gradient_column n y Amin G _ a Hn Ha HG Hentry)
    by (rewrite length_map; apply HT).
  assert (Hrow : forall r, (r < 2 * (n + 1))%nat ->
            nth r (map (fun trow => dot trow (column b G)) Theta) 0 =
            gradient_value y Amin b *
            (entry Theta r (gradient_row_plus n b)
             - entry Theta r (gradient_row_minus n b))).
  { intros r Hr. destruct HT as [HTr HTc].
    rewrite (nth_map_in _ Theta r 0 []) by lia.
    rewrite dot_comm.
    apply (dot_gradient_column n y Amin G _ b Hn Hb HG Hentry).
    rewrite Forall_forall in HTc. apply HTc, nth_In. lia. }
  rewrite !Hrow by assumption. ring.
Qed.

(** X13.  For [n >= 1] observables and results of the sizes of the
    augmented problem, the covariance that [__reweight__] returns has
    the entries
    v_a v_b (Theta[p_a][p_b] - Theta[p_a][q_b] - Theta[q_a][p_b]
             + Theta[q_a][q_b]),
    where column [a] of the gradient holds [v_a] at row [p_a] and
    [-v_a] at row [q_a]: for the free-energy difference (a = 0) v = 1,
    p = 2n+1, q = n+1, and for observable [i] (a = i+1)
    v = y_i - Amin_i, p = i, q = n+1+i. *)
Theorem reweight_covariance_entries
  (est : matrix -> matrix -> int_array -> py results.t)
  (mx : mixture.t) (u y : list matrix) (ref : nat) (u_ln A_n : matrix)
  (res : results.t) (n : nat) :
  u_ln_of mx u ref = inr u_ln ->
  hstack y = inr A_n -> nrows A_n = n -> (1 <= n)%nat ->
  est A_n u_ln (smap_of n) = inr res ->
  results_fit n res ->
  exists vals cov,
    __reweight__ est mx u y ref = inr (vals, cov) /\
    forall a b, (a < n + 1)%nat -> (b < n + 1)%nat ->
      let v := gradient_value (results.observables res) (results.Amin res) in
      let p := gradient_row_plus n in
      let q := gradient_row_minus n in
      let T := entry (results.Theta res) in
      entry cov a b =
      v a * v b * (T (p a) (p b) - T (p a) (q b) - T (q a) (p b)
                   + T (q a) (q b)).
Proof.
  intros Hu HA Hrows Hn Hest Hfit.
  destruct (reweight_many_inv est mx u y ref u_ln A_n res n
              Hu HA Hrows Hn Hest Hfit) as (G & _ & HG & Hentry & Hrw).
  eexists _, _. split; [exact Hrw|].
  intros a b Ha Hb. cbv zeta.
  apply (covariance_entry n _ _ G _ a b Hn Ha Hb HG Hentry).
  apply Hfit.
Qed.

Lemma res0_fit : results_fit 1 res0.
Proof.
  unfold results_fit, res0; simpl.
  repeat split; try lia. repeat constructor.
Qed.

Lemma reweight_covariance_entries_witness :
  exists vals cov,
    __reweight__ est0 mx0 unew0 y_one 0 = inr (vals, cov) /\
    forall a b, (a < 2)%nat -> (b < 2)%nat ->
      let v := gradient_value (results.observables res0) (results.Amin res0) in
      let p := gradient_row_plus 1 in
      let q := gradient_row_minus 1 in
      let T := entry (results.Theta res0) in
      entry cov a b =
      v a * v b * (T (p a) (p b) - T (p a) (q b) - T (q a) (p b)
                   + T (q a) (q b)).
Proof.
  apply (reweight_covariance_entries est0 mx0 unew0 y_one 0
           [[0; 0; 0]; [0; 0; 0]] [[5; 6; 7]] res0 1
           eq_refl eq_refl eq_refl (le_n 1) eq_refl res0_fit).
Defined.

(** X14.  An observable whose returned value equals its subtracted
    minimum ([y_i = Amin_i], so that [delta[i] = 0]) has variance zero
    and covariance zero with the free-energy difference and with every
    other observable: row and column [i+1] of the returned covariance
    are zero. *)
Theorem reweight_zero_delta
  (est : matrix -> matrix -> int_array -> py results.t)
  (mx : mixture.t) (u y : list matrix) (ref : nat) (u_ln A_n : matrix)
  (res : results.t) (n i : nat) :
  u_ln_of mx u ref = inr u_ln ->
  hstack y = inr A_n -> nrows A_n = n -> (1 <= n)%nat ->
  est A_n u_ln (smap_of n) = inr res ->
  results_fit n res ->
  (i < n)%nat ->
  nth i (results.observables res) 0 = nth i (results.Amin res) 0 ->
  exists vals cov,
    __reweight__ est mx u y ref = inr (vals, cov) /\
    forall b, (b < n + 1)%nat ->
      entry cov (S i) b = 0 /\ entry cov b (S i) = 0.
Proof.
  intros Hu HA Hrows Hn Hest Hfit Hi Heq.
  destruct (reweight_many_inv est mx u y ref u_ln A_n res n
              Hu HA Hrows Hn Hest Hfit) as (G & _ & HG & Hentry & Hrw).
  eexists _, _. split; [exact Hrw|].
  assert (Hv : gradient_value (results.observables res) (results.Amin res)
                 (S i) = 0)
    by (cbn [gradient_value]; rewrite Heq; ring).
  intros b Hb. split.
  - rewrite (covariance_entry n _ _ G _ (S i) b Hn ltac:(lia) Hb HG Hentry)
      by apply Hfit.
    rewrite Hv. ring.
  - rewrite (covariance_entry n _ _ G _ b (S i) Hn Hb ltac:(lia) HG Hentry)
      by apply Hfit.
    rewrite Hv. ring.
Qed.

Lemma res_const_fit : results_fit 1 res_const.
Proof.
  unfold results_fit, res_const; simpl.
  repeat split; try lia. repeat constructor.
Qed.

Lemma reweight_zero_delta_witness :
  exists vals cov,
    __reweight__ est_const mx0 unew0 y_one 0 = inr (vals, cov) /\
    forall b, (b < 2)%nat -> entry cov 1 b = 0 /\ entry cov b 1 = 0.
Proof.
  apply (reweight_zero_delta est_const mx0 unew0 y_one 0
           [[0; 0; 0]; [0; 0; 0]] [[5; 6; 7]] res_const 1 0
           eq_refl eq_refl eq_refl (le_n 1) eq_refl res_const_fit).
  - lia.
  - reflexivity.
Defined.

Lemma length_matmul (A B : matrix) : length (matmul A B) = length A.
Proof. unfold matmul. apply length_map. Qed.

Lemma matmul_rows (A B : matrix) :
  Forall (fun row => length row = ncols B) (matmul A B).
Proof.
  unfold matmul. apply Forall_forall. intros row Hin.
  apply in_map_iff in Hin. destruct Hin as (r & <- & _).
  rewrite length_map, length_seq. reflexivity.
Qed.

(** X15.  For [n >= 1] observables and results of the sizes of the
    augmented problem, [__reweight__] returns [n + 1] values and a
    covariance matrix of shape (n+1, n+1), which is symmetric whenever
    the covariance matrix of the estimator is. *)
Theorem reweight_covariance_shape
  (est : matrix -> matrix -> int_array -> py results.t)
  (mx : mixture.t) (u y : list matrix) (ref : nat) (u_ln A_n : matrix)
  (res : results.t) (n : nat) :
  u_ln_of mx u ref = inr u_ln ->
  hstack y = inr A_n -> nrows A_n = n -> (1 <= n)%nat ->
  est A_n u_ln (smap_of n) = inr res ->
  results_fit n res ->
  exists vals cov,
    __reweight__ est mx u y ref = inr (vals, cov) /\
    length vals = (n + 1)%nat /\
    is_matrix (n + 1) (n + 1) cov /\
    (is_symmetric (results.Theta res) ->
     forall a b, (a < n + 1)%nat -> (b < n + 1)%nat ->
       entry cov a b = entry cov b a).
Proof.
  intros Hu HA Hrows Hn Hest Hfit.
  destruct (reweight_many_inv est mx u y ref u_ln A_n res n
              Hu HA Hrows Hn Hest Hfit) as (G & _ & HG & Hentry & Hrw).
  assert (HcG : ncols G = (n + 1)%nat)
    by (apply (ncols_is_matrix _ _ _ HG); lia).
  assert (HneT : results.Theta res <> []).
  { destruct Hfit as (_ & _ & _ & [HT _]). intros E. rewrite E in HT.
    simpl in HT. lia. }
  eexists _, _. split; [exact Hrw|]. split; [|split].
  - destruct Hfit as (_ & Hobs & _).
    rewrite length_app, length_firstn. simpl. lia.
  - split.
    + rewrite length_matmul, length_transpose. exact HcG.
    + pose proof (matmul_rows (transpose G)
                    (matmul (results.Theta res) G)) as HF.
      rewrite ncols_matmul in HF by exact HneT. rewrite HcG in HF.
      exact HF.
  - intros Hsym a b Ha Hb.
    rewrite (covariance_entry n _ _ G _ a b Hn Ha Hb HG Hentry)
      by apply Hfit.
    rewrite (covariance_entry n _ _ G _ b a Hn Hb Ha HG Hentry)
      by apply Hfit.
    rewrite (Hsym (gradient_row_plus n a) (gradient_row_plus n b)).
    rewrite (Hsym (gradient_row_plus n a) (gradient_row_minus n b)).
    rewrite (Hsym (gradient_row_minus n a) (gradient_row_plus n b)).
    rewrite (Hsym (gradient_row_minus n a) (gradient_row_minus n b)).
    ring.
Qed.

Lemma reweight_covariance_shape_witness :
  exists vals cov,
    __reweight__ est0 mx0 unew0 y_one 0 = inr (vals, cov) /\
    length vals = 2%nat /\
    is_matrix 2 2 cov /\
    (is_symmetric (results.Theta res0) ->
     forall a b, (a < 2)%nat -> (b < 2)%nat ->
       entry cov a b = entry cov b a).
Proof.
  apply (reweight_covariance_shape est0 mx0 unew0 y_one 0
           [[0; 0; 0]; [0; 0; 0]] [[5; 6; 7]] res0 1
           eq_refl eq_refl eq_refl (le_n 1) eq_refl res0_fit).
Defined.

(** *** The gauge of the estimator *)

Lemma getitem_map {A B : Type} (g : A -> B) (v : list A) (i : nat) :
  getitem (map g v) i = (x <- getitem v i ;; ret (g x)).
Proof.
  unfold getitem. rewrite nth_error_map.
  destruct (nth_error v i); reflexivity.
Qed.

Lemma getitem2_mat_map (g : R -> R) (M : matrix) (i j : nat) :
  getitem2 (mat_map g M) i j = (x <- getitem2 M i j ;; ret (g x)).
Proof.
  unfold getitem2, mat_map. rewrite getitem_map.
  destruct (getitem M i) as [e|row]; cbn [bind ret]; [reflexivity|].
  apply getitem_map.
Qed.

Lemma dot_shift (row col : vec) (d : R) :
  length row = length col ->
  dot (map (fun x => x + d) row) col = dot row col + d * Rsum col.
Proof.
  revert col. induction row as [|a row IH]; intros [|b col] H;
    simpl in *; try lia.
  - unfold dot. simpl. ring.
  - rewrite !dot_cons, IH by lia. ring.
Qed.

(** Every column of the gradient sums to zero. *)
Lemma gradient_column_sum (n : nat) (y Amin : vec) (G : matrix) (c : nat) :
  (1 <= n)%nat -> (c < n + 1)%nat ->
  is_matrix (2 * (n + 1)) (n + 1) G ->
  (forall r c', (c' < n + 1)%nat ->
     entry G r c' = jacobian_entry n y Amin r c') ->
  Rsum (column c G) = 0.
Proof.
  intros Hn Hc HG Hentry.
  assert (HL : length (column c G) = (2 * (n + 1))%nat)
    by (unfold column; rewrite length_map; apply HG).
  destruct (gradient_rows_in_range n c Hn Hc) as (Hp & Hq & _).
  rewrite <- (dot_ones (column c G) (column c G) eq_refl).
  rewrite (dot_gradient_column n y Amin G _ c Hn Hc HG Hentry)
    by (rewrite length_map; exact HL).
  rewrite !(nth_map_in (fun _ => 1) (column c G) _ 0 0) by lia.
  ring.
Qed.

Lemma matmul_shift (n : nat) (y Amin : vec) (G Theta : matrix) (d : R) :
  (1 <= n)%nat ->
  is_matrix (2 * (n + 1)) (n + 1) G ->
  (forall r c, (c < n + 1)%nat ->
     entry G r c = jacobian_entry n y Amin r c) ->
  is_matrix (2 * (n + 1)) (2 * (n + 1)) Theta ->
  matmul (mat_map (fun x => x + d) Theta) G = matmul Theta G.
Proof.
  intros Hn HG Hentry [HTr HTc].
  assert (HcG : ncols G = (n + 1)%nat)
    by (apply (ncols_is_matrix _ _ _ HG); lia).
  unfold matmul, mat_map. rewrite map_map.
  apply map_ext_in. intros row Hin.
  apply map_ext_in. intros j Hj. apply in_seq in Hj.
  rewrite dot_shift.
  - rewrite (gradient_column_sum n y Amin G j Hn ltac:(lia) HG Hentry).
    ring.
  - rewrite Forall_forall in HTc. rewrite (HTc row Hin).
    unfold column. rewrite length_map. symmetry. apply HG.
Qed.

(** X16.  The result of [__reweight__] does not depend on the gauge of
    the estimator: adding a constant [c] to every free energy and a
    constant [d] to every entry of the covariance matrix that the
    estimator returns changes neither the values nor the covariance
    that [__reweight__] returns (without observables, and with [n >= 1]
    observables for results of the sizes of the augmented problem). *)
Theorem reweight_estimator_gauge
  (est est' : matrix -> matrix -> int_array -> py results.t)
  (mx : mixture.t) (u y : list matrix) (ref : nat) (u_ln A_n : matrix)
  (res : results.t) (c d : R) :
  u_ln_of mx u ref = inr u_ln ->
  hstack y = inr A_n ->
  est A_n u_ln (smap_of (nrows A_n)) = inr res ->
  est' A_n u_ln (smap_of (nrows A_n)) = inr (shift_results c d res) ->
  ((1 <= nrows A_n)%nat -> results_fit (nrows A_n) res) ->
  __reweight__ est' mx u y ref = __reweight__ est mx u y ref.
Proof.
  intros Hu HA Hest Hest' Hfit.
  destruct (Nat.eq_dec (nrows A_n) 0) as [E0|E0].
  - unfold __reweight__. rewrite Hu. cbn [bind]. rewrite HA. cbn [bind].
    rewrite Hest, Hest'. cbn [bind]. rewrite E0. cbn [Nat.eqb].
    cbn [shift_results results.f results.Theta].
    rewrite !getitem_map, !getitem2_mat_map.
    destruct (getitem (results.f res) 0) as [e|f0]; cbn [bind ret];
      [reflexivity|].
    destruct (getitem (results.f res) 1) as [e|f1]; cbn [bind ret];
      [reflexivity|].
    destruct (getitem2 (results.Theta res) 0 0) as [e|t00]; cbn [bind ret];
      [reflexivity|].
    destruct (getitem2 (results.Theta res) 1 1) as [e|t11]; cbn [bind ret];
      [reflexivity|].
    destruct (getitem2 (results.Theta res) 0 1) as [e|t01]; cbn [bind ret];
      [reflexivity|].
    replace (f0 + c - (f1 + c)) with (f0 - f1) by ring.
    replace (t00 + d + (t11 + d) - 2 * (t01 + d))
      with (t00 + t11 - 2 * t01) by ring.
    reflexivity.
  - assert (Hn : (1 <= nrows A_n)%nat) by lia.
    specialize (Hfit Hn).
    assert (Hfit' : results_fit (nrows A_n) (shift_results c d res)).
    { destruct Hfit as (Hf & Hobs & HAmin & [HTr HTc]).
      unfold results_fit, shift_results. cbn.
      rewrite length_map. repeat split; try assumption.
      - unfold mat_map. rewrite length_map. exact HTr.
      - unfold mat_map. apply Forall_forall. intros row Hin.
        apply in_map_iff in Hin. destruct Hin as (r & <- & Hr).
        rewrite length_map. rewrite Forall_forall in HTc. apply HTc, Hr. }
    destruct (reweight_many_inv est mx u y ref u_ln A_n res (nrows A_n)
                Hu HA eq_refl Hn Hest Hfit)
      as (G & EG & HG & Hentry & Hrw).
    destruct (reweight_many_inv est' mx u y ref u_ln A_n
                (shift_results c d res) (nrows A_n)
                Hu HA eq_refl Hn Hest' Hfit')
      as (G' & EG' & _ & _ & Hrw').
    cbn [shift_results results.f results.observables results.Amin
         results.Theta] in EG', Hrw'.
    rewrite EG in EG'. injection EG' as <-.
    rewrite Hrw, Hrw'.
    rewrite (matmul_shift (nrows A_n) _ _ G _ d Hn HG Hentry)
      by apply Hfit.
    destruct Hfit as (Hf & _).
    rewrite !(nth_map_in (fun x => x + c) _ _ 0 0) by lia.
    replace (nth 0 (results.f res) 0 + c
             - (nth (nrows A_n) (results.f res) 0 + c))
      with (nth 0 (results.f res) 0 - nth (nrows A_n) (results.f res) 0)
      by ring.
    reflexivity.
Qed.

Lemma reweight_estimator_gauge_witness :
  __reweight__ est0_shifted mx0 unew0 y_one 0 =
  __reweight__ est0 mx0 unew0 y_one 0.
Proof.
  apply (reweight_estimator_gauge est0 est0_shifted mx0 unew0 y_one 0
           [[0; 0; 0]; [0; 0; 0]] [[5; 6; 7]] res0 2 3
           eq_refl eq_refl eq_refl eq_refl).
  intros _. exact res0_fit.
Defined.

(** ** A state reweighted to itself *)

Lemma hstack_single_rows (rows : list vec) :
  rows <> [] ->
  hstack (map (fun r => [r]) rows) = inr [concat rows].
Proof.
  intros Hne. destruct rows as [|r rs]; [congruence|].
  unfold hstack. cbn [map].
  replace (forallb (fun b' => (nrows b' =? nrows [r])%nat)
             (map (fun r0 => [r0]) rs)) with true.
  - unfold hstack_rows. cbn [hd nrows length seq map].
    rewrite map_map. cbn [nth].
    rewrite (map_ext _ (fun x : vec => x)) by reflexivity.
    rewrite map_id. reflexivity.
  - symmetry. apply forallb_forall. intros b Hin.
    apply in_map_iff in Hin. destruct Hin as (r0 & <- & _). reflexivity.
Qed.

(** X17.  When the potentials of the new state are those of the
    reference state (row [ref] of every block of the mixture),
    [__reweight__] hands the estimator two identical rows of
    potentials. *)
Theorem u_ln_identity (mx : mixture.t) (ref : nat) :
  mixture_wf mx -> (ref < mixture.m mx)%nat ->
  u_ln_of mx (map (fun x => [nth ref x []]) (mixture.u mx)) ref =
  inr [nth ref (hstack_rows (mixture.u mx)) [];
       nth ref (hstack_rows (mixture.u mx)) []].
Proof.
  intros Hwf Href.
  destruct (mixture_wf_blocks mx Hwf) as (Hne & Hhd & _).
  destruct (reference_row mx ref Hwf Href) as [E L].
  unfold u_ln_of.
  rewrite <- (map_map (fun x => nth ref x []) (fun r => [r])).
  rewrite hstack_single_rows
    by (destruct (mixture.u mx); [congruence | discriminate]).
  cbn [bind]. rewrite E. cbn [bind].
  rewrite nth_hstack_rows by lia.
  unfold flatten. cbn [concat]. rewrite app_nil_r.
  unfold stack2. rewrite Nat.eqb_refl. reflexivity.
Qed.

Lemma u_ln_identity_witness :
  u_ln_of mx0 (map (fun x => [nth 1 x []]) (mixture.u mx0)) 1 =
  inr [nth 1 (hstack_rows (mixture.u mx0)) [];
       nth 1 (hstack_rows (mixture.u mx0)) []].
Proof.
  apply (u_ln_identity mx0 1 mx0_wf). simpl. lia.
Defined.

(** ** The reduced potential of the mixture *)

(** X18.  After [__initialize__] of a well-shaped mixture, the reduced
    potential of the mixture at sample [j] of block [i] is
    u0[i][j] = log(N) - logsumexp_k(log N_k + f_k - u[k][j]), with N the
    number of samples of the pool. *)
Theorem u0_entries
  (MBAR_solve : matrix -> list nat -> R -> vec -> py mbar_MBAR)
  (cov : matrix -> list nat -> matrix)
  (tol : R) (mx mx' : mixture.t) (P : list matrix) (i j : nat) :
  mixture_wf mx ->
  __initialize__ MBAR_solve cov tol mx = inr (mx', P) ->
  length (mixture.f mx') = mixture.m mx ->
  (i < mixture.m mx)%nat -> (j < nth i (mixture.n mx) 0)%nat ->
  nth j (nth i (mixture.u0 mx') []) 0 =
  ln (INR (nat_sum (mixture.n mx)))
  - logsumexp
      (map (fun p => xplus (np_log_count (fst (fst p)))
                           (snd (fst p) - nth j (snd p) 0))
           (combine (combine (mixture.n mx) (mixture.f mx'))
                    (nth i (mixture.u mx) []))).
Proof.
  intros (Hn & Hu & _ & Hblocks & Hpos) Hinit Hf Hi Hj.
  destruct (initialize_inv _ _ _ _ _ _ Hu Hinit)
    as (U & mb & _ & _ & -> & _).
  cbn [mixture.f mixture.u0] in *.
  rewrite (nth_map_in (u0_of _) _ _ _ []) by lia.
  apply (u0_of_entry _ _ _ (mixture.m mx) (nth i (mixture.n mx) 0%nat));
    try assumption.
  apply Hblocks, Hi.
Qed.

Lemma u0_entries_witness :
  exists mx' P,
    __initialize__ solve0 cov0 1 mx0 = inr (mx', P) /\
    nth 1 (nth 1 (mixture.u0 mx') []) 0 =
    ln (INR (nat_sum (mixture.n mx0)))
    - logsumexp
        (map (fun p => xplus (np_log_count (fst (fst p)))
                             (snd (fst p) - nth 1 (snd p) 0))
             (combine (combine (mixture.n mx0) (mixture.f mx'))
                      (nth 1 (mixture.u mx0) []))).
Proof.
  eexists _, _. split; [reflexivity|].
  apply (u0_entries solve0 cov0 1 mx0 _ _ 1 1 mx0_wf eq_refl);
    simpl; solve [reflexivity | lia].
Defined.
